(** * botrate: bot-aware admission control

    A shallow embedding of the Go packages [botrate] and [botrate/analyzer]
    and the properties their specification states about them.

    Conventions.
    - Go [string] is [string]; [int] is [Z]; [uint16] and [uint64] are [Z]
      with the wrap-around written out ([u16], [u64]).
    - Go maps are stdpp [gmap]s, [map[string]struct{}] is a [gset string].
    - Methods on a pointer receiver take the receiver's state and return
      the result together with the new state.
    - The third-party collaborators (the Bloom filter's hash, [maphash]
      and the token bucket of [x/time/rate]) are the fields of the class
      [Env]; the knownbots validator is a field of the limiter, as in the
      source. *)

From stdpp Require Import gmap strings list fin_maps.
From Stdlib Require Import ZArith QArith Lia.

Local Open Scope Z_scope.

#[local] Set Warnings "-clear-no-such-hyp".

(** ** Fixed-width integers *)

Definition u16 (z : Z) : Z := z mod 65536.
Definition u64 (z : Z) : Z := z mod 18446744073709551616.

(** ** container/list, as far as [Counter] uses it

    The recency list holds client identities, front first.  An element
    pointer kept in [Counter.index] is identified with the value it holds. *)

Module GoList.

Definition PushFront (v : string) (l : list string) : list string := v :: l.

Definition Back (l : list string) : option string := last l.

(** [l.Remove(l.Back())] *)
Definition RemoveBack (l : list string) : list string := removelast l.

Fixpoint unlink (v : string) (l : list string) : list string :=
  match l with
  | [] => []
  | x :: r => if decide (x = v) then r else x :: unlink v r
  end.

(** [l.MoveToFront(e)]: nothing happens when [e] is not an element of [l]. *)
Definition MoveToFront (v : string) (l : list string) : list string :=
  if decide (v ∈ l) then v :: unlink v l else l.

End GoList.

(** ** analyzer/counter.go *)

Module Counter.

(** [index] maps a client to its element of [lru]; only the clients it
    holds matter here, since an element is identified with its value. *)
Record t : Type := mk {
  maxSize : Z;
  data : gmap string Z;
  lru : list string;
  index : gset string
}.

Definition NewCounter : t :=
  {| maxSize := 100000; data := ∅; lru := []; index := ∅ |}.

(** The eviction block of [Visit] (counter.go:31-38). *)
Definition evict (c : t) : t :=
  if Z.of_nat (size (data c)) >=? maxSize c then
    match GoList.Back (lru c) with
    | Some tailIP =>
        {| maxSize := maxSize c;
           data := delete tailIP (data c);
           lru := GoList.RemoveBack (lru c);
           index := index c ∖ {[tailIP]} |}
    | None => c
    end
  else c.

Definition Visit (ip : string) (c : t) : Z * t :=
  if decide (ip ∈ index c) then
    let count := u16 (default 0 (data c !! ip) + 1) in
    (count,
     {| maxSize := maxSize c;
        data := <[ip := count]> (data c);
        lru := GoList.MoveToFront ip (lru c);
        index := index c |})
  else
    let c1 := evict c in
    (1,
     {| maxSize := maxSize c1;
        data := <[ip := 1]> (data c1);
        lru := GoList.PushFront ip (lru c1);
        index := {[ip]} ∪ index c1 |}).

Definition Count (ip : string) (c : t) : Z := default 0 (data c !! ip).

Definition Clear (c : t) : t :=
  {| maxSize := maxSize c; data := ∅; lru := []; index := ∅ |}.

(** [c.maxSize = n], as the tests of the package do after [NewCounter]. *)
Definition setMaxSize (n : Z) (c : t) : t :=
  {| maxSize := n; data := data c; lru := lru c; index := index c |}.

(** The state after, and the result of, the [n]-th of [n] consecutive
    calls [c.Visit(ip)] (0 and [c] itself when [n = 0]). *)
Fixpoint VisitN (n : nat) (ip : string) (c : t) : Z * t :=
  match n with
  | O => (0, c)
  | S m => Visit ip (VisitN m ip c).2
  end.

(** Visiting a list of clients in order, results dropped. *)
Definition VisitAll (ips : list string) (c : t) : t :=
  foldl (fun c ip => (Visit ip c).2) c ips.

(** The three fields describe the same set of clients. *)
Definition wf (c : t) : Prop :=
  NoDup (lru c) /\ index c = list_to_set (lru c) /\ dom (data c) = index c.

End Counter.

(** ** Collaborators outside the repository *)

(** [error] values the packages exchange; Go's [nil] error is [None]. *)
Inductive error : Type :=
  | Canceled            (* context.Canceled *)
  | DeadlineExceeded    (* context.DeadlineExceeded *)
  | ErrOther (msg : string).

Global Instance error_eq_dec : EqDecision error.
Proof. solve_decision. Defined.

(** A [context.Context] as the token bucket sees it: what [ctx.Err()]
    answers when the call starts, and the deadline if there is one. *)
Record Context : Type := {
  ctx_err : option error;
  ctx_deadline : option Z
}.

Definition Background : Context := {| ctx_err := None; ctx_deadline := None |}.

(** What the environment settles at one call: the wall clock and the seed
    a zero [maphash.Hash] draws for itself on first use. *)
Record World : Type := { now : Z; seed : Z }.

Class Env : Type := {
  (** [hash/maphash]: [Sum64] after the given bytes were written to a
      [Hash] whose seed is the first argument. *)
  maphash_Sum64 : Z -> list Z -> Z;
  (** [bits-and-blooms/bloom]: the [i]-th probe of a key, before it is
      reduced modulo the filter's width. *)
  bloom_location : list Z -> nat -> Z;
  (** [golang.org/x/time/rate]: the token bucket, built from a rate and a
      burst, with its non-blocking and its blocking acquire. *)
  bucket : Type;
  NewLimiter : Q -> Z -> bucket;
  bucket_Allow : Z -> bucket -> bool * bucket;
  bucket_Wait : Z -> Context -> bucket -> option error * bucket
}.

(** ** Bytes *)

Definition byte (z : Z) : Z := z mod 256.

Fixpoint bytes_of_string (s : string) : list Z :=
  match s with
  | EmptyString => []
  | String a r => Z.of_N (Ascii.N_of_ascii a) :: bytes_of_string r
  end.

(** ** The probabilistic set behind the dedup filter *)

Module Bloom.
Section WithEnv.
Context `{Env}.

(** Modelled from the spec: the filter type of bits-and-blooms/bloom, which
    the repository imports and does not contain.  The specification asks
    for a space-efficient membership structure of fixed capacity with no
    false negatives and a bounded rate of false positives; this is the
    Bloom filter: a set of [m] bits, [b], probed at [k] locations per
    key. *)
Record BloomFilter : Type := mk { m : Z; k : nat; b : Z }.

(** Modelled from the spec: [bloom.New], an empty filter; the library
    raises a width or a probe count of zero to one. *)
Definition New (m0 : Z) (k0 : nat) : BloomFilter :=
  {| m := Z.max 1 m0; k := Nat.max 1 k0; b := 0 |}.

(** Modelled from the spec: the [k] bit positions of a key. *)
Definition locations (f : BloomFilter) (key : list Z) : list Z :=
  map (fun i => bloom_location key i mod m f) (seq 0 (k f)).

(** Modelled from the spec: [Test], whether every position of the key is
    set. *)
Definition Test (f : BloomFilter) (key : list Z) : bool :=
  forallb (Z.testbit (b f)) (locations f key).

(** Modelled from the spec: [Add], which sets every position of the key. *)
Definition Add (f : BloomFilter) (key : list Z) : BloomFilter :=
  {| m := m f; k := k f;
     b := fold_left (fun acc loc => Z.lor acc (Z.shiftl 1 loc))
                    (locations f key) (b f) |}.

(** A filter as [New] makes it: at least one bit, at least one probe. *)
Definition valid (f : BloomFilter) : Prop := 1 <= m f /\ (1 <= k f)%nat.

End WithEnv.
End Bloom.

(** ** analyzer/bloom.go *)

Module DoubleBufferBloom.
Section WithEnv.
Context `{Env}.

Definition BloomMaxCapacity : Z := 100000.

(** Modelled from the spec: [bloom.NewWithEstimates(BloomMaxCapacity,
    BloomFalsePositiveRate)], sized for 100000 keys at a false-positive
    rate of 0.01: [m = ceil (-n ln p / (ln 2)^2) = 958506] bits and
    [k = ceil (ln 2 * m / n) = 7] probes. *)
Definition NewWithEstimates : Bloom.BloomFilter := Bloom.New 958506 7.

Record t : Type := mk {
  current : Bloom.BloomFilter;
  previous : Bloom.BloomFilter
}.

Definition NewDoubleBufferBloom : t :=
  {| current := NewWithEstimates; previous := NewWithEstimates |}.

Definition TestAndAdd (key : list Z) (dbf : t) : bool * t :=
  if Bloom.Test (current dbf) key then (true, dbf)
  else (false,
        {| current := Bloom.Add (current dbf) key;
           previous := previous dbf |}).

Definition Rotate (dbf : t) : t :=
  let newFilter := NewWithEstimates in
  {| previous := current dbf; current := newFilter |}.

(** A run of [TestAndAdd] calls inside one generation. *)
Definition TestAndAddAll (keys : list (list Z)) (dbf : t) : t :=
  foldl (fun d key => (TestAndAdd key d).2) dbf keys.

(** The current generation is a filter as [bloom.New] makes it. *)
Definition valid (dbf : t) : Prop := Bloom.valid (current dbf).

End WithEnv.
End DoubleBufferBloom.

(** ** analyzer/analyzer.go *)

Module Analyzer.
Section WithEnv.
Context `{Env}.

Record Config : Type := {
  Window : Z;
  PageThreshold : Z;
  QueueCap : Z
}.

Record Request : Type := { IP : string; Path : Z }.

(** [atomic.Pointer[map[string]struct{}]]: the map the pointer refers
    to, and the maps it referred to before, newest first.  A published
    map is never written again. *)
Record Blocklist : Type := {
  current : gset string;
  retired : list (gset string)
}.

Definition Load (bl : Blocklist) : gset string := current bl.

Definition Store (new : gset string) (bl : Blocklist) : Blocklist :=
  {| current := new; retired := current bl :: retired bl |}.

(** The request pool only recycles [Request] cells, whose two fields are
    overwritten before every use; it is not part of the state.  [queue]
    is the buffer of the channel, oldest first; [stop] tells whether the
    stop channel was closed and [running] whether the worker goroutine
    is still in its loop. *)
Record t : Type := {
  cfg : Config;
  blocklist : Blocklist;
  queue : list Request;
  bloom : DoubleBufferBloom.t;
  counter : Counter.t;
  stop : bool;
  running : bool
}.

(** The analyzer [New] returns, its worker in the loop.  That is what a
    call of [New] comes to unless [startup] below tells of a panic. *)
Definition New (cfg0 : Config) : t :=
  {| cfg := cfg0;
     blocklist := {| current := ∅; retired := [] |};
     queue := [];
     bloom := DoubleBufferBloom.NewDoubleBufferBloom;
     counter := Counter.NewCounter;
     stop := false;
     running := true |}.

(** The two places where building an analyzer panics: in [New] itself,
    [make(chan *Request, cfg.QueueCap)] for a negative capacity
    (analyzer.go:44); and, in the worker that [New] starts,
    [time.NewTicker(a.cfg.Window)] for a window that is not positive
    (analyzer.go:90), before the worker reaches its loop.  A panic of
    the worker goroutine ends the program. *)
Inductive panic : Type :=
  | MakeChan
  | NewTicker.

Definition startup (cfg0 : Config) : option panic :=
  if QueueCap cfg0 <? 0 then Some MakeChan
  else if Window cfg0 <=? 0 then Some NewTicker
  else None.

Definition u64ToBytes (v : Z) : list Z :=
  [ byte v; byte (Z.shiftr v 8); byte (Z.shiftr v 16); byte (Z.shiftr v 24);
    byte (Z.shiftr v 32); byte (Z.shiftr v 40); byte (Z.shiftr v 48);
    byte (Z.shiftr v 56) ].

Definition hashStr (w : World) (s : string) : Z :=
  maphash_Sum64 (seed w) (bytes_of_string s).

Definition hashIPPath (w : World) (ip : string) (pathHash : Z) : Z :=
  maphash_Sum64 (seed w) (bytes_of_string ip ++ u64ToBytes pathHash).

(** The [select] with a [default] case: the send goes through when the
    buffer has room, and the request is given back otherwise.  (A channel
    of capacity 0 has no buffer: there a send goes through only into the
    hands of a worker parked at its receive, which the model, where the
    worker takes requests from the buffer, counts as a drop.) *)
Definition Record_ (w : World) (ip path : string) (a : t) : t :=
  let req := {| IP := ip; Path := hashStr w path |} in
  if Z.of_nat (length (queue a)) <? QueueCap (cfg a) then
    {| cfg := cfg a; blocklist := blocklist a;
       queue := queue a ++ [req];
       bloom := bloom a; counter := counter a;
       stop := stop a; running := running a |}
  else a.

Definition Blocked (ip : string) (a : t) : bool :=
  let bl := Load (blocklist a) in
  bool_decide (ip ∈ bl).

Definition Close (a : t) : t :=
  if stop a then a
  else {| cfg := cfg a; blocklist := blocklist a; queue := queue a;
          bloom := bloom a; counter := counter a;
          stop := true; running := running a |}.

Definition block (ip : string) (a : t) : t :=
  let old := Load (blocklist a) in
  if bool_decide (ip ∈ old) then a
  else
    let new := {[ip]} ∪ old in
    {| cfg := cfg a; blocklist := Store new (blocklist a);
       queue := queue a; bloom := bloom a; counter := counter a;
       stop := stop a; running := running a |}.

Definition analyze (w : World) (req : Request) (a : t) : t :=
  let key := hashIPPath w (IP req) (Path req) in
  let '(seen, bloom1) :=
    DoubleBufferBloom.TestAndAdd (u64ToBytes key) (bloom a) in
  if seen then a
  else
    let '(count, counter1) := Counter.Visit (IP req) (counter a) in
    let a1 := {| cfg := cfg a; blocklist := blocklist a; queue := queue a;
                 bloom := bloom1; counter := counter1;
                 stop := stop a; running := running a |} in
    if count >=? PageThreshold (cfg a) then block (IP req) a1 else a1.

Definition rotate (a : t) : t :=
  {| cfg := cfg a; blocklist := blocklist a; queue := queue a;
     bloom := DoubleBufferBloom.Rotate (bloom a);
     counter := Counter.Clear (counter a);
     stop := stop a; running := running a |}.

(** What can happen to an analyzer: the calls of its clients, and the
    three cases the worker's [select] chooses from. *)
Inductive event : Type :=
  | CallRecord (w : World) (ip path : string)
  | CallClose
  | WorkerRecv (w : World)
  | WorkerTick
  | WorkerStop.

Definition step (e : event) (a : t) : t :=
  match e with
  | CallRecord w ip path => Record_ w ip path a
  | CallClose => Close a
  | WorkerRecv w =>
      if running a then
        match queue a with
        | req :: rest =>
            analyze w req
              {| cfg := cfg a; blocklist := blocklist a; queue := rest;
                 bloom := bloom a; counter := counter a;
                 stop := stop a; running := running a |}
        | [] => a
        end
      else a
  | WorkerTick => if running a then rotate a else a
  | WorkerStop =>
      if running a && stop a then
        {| cfg := cfg a; blocklist := blocklist a; queue := queue a;
           bloom := bloom a; counter := counter a;
           stop := stop a; running := false |}
      else a
  end.

Definition run (es : list event) (a : t) : t :=
  foldl (fun a e => step e a) a es.

End WithEnv.
End Analyzer.

(** ** The botrate package: what the texts of limiter.go share

    The source tree holds three texts of limiter.go.  The oldest
    (src/limiter.go:1-145) sends every bot that is not verified to the
    token bucket.  The second (src/limiter.go:146-299) switches on the
    validator's status and returns a bare [bool] from [Allow].  The newest
    (the package source that follows the module file, src/go.mod:15-196)
    returns a [Reason] as well, and turns a [nil] from the bucket's wait
    into [ErrLimit]; it is the one the specification describes.  The
    types, the limiter pool and [Close] are the same in all three. *)

Module Limiter.
Section WithEnv.
Context `{Env}.

(** Modelled from the spec: the classifier's four-way status, declared in
    knownbots, which the repository imports and does not contain. *)
Inductive ResultStatus : Type :=
  | StatusVerified
  | StatusPending
  | StatusFailed
  | StatusUnknown.

(** Modelled from the spec: the classifier's result, [{isBot, status}]. *)
Record Result : Type := { IsBot : bool; Status : ResultStatus }.

(** Modelled from the spec: [Validate(userAgent, clientID)]. *)
Definition Validator : Type := string -> string -> Result.

(** config.go (src/example/main.go:47-61) *)
Record Config : Type := {
  Limit : Q;
  Window : Z;
  PageThreshold : Z;
  QueueCap : Z
}.

Definition DefaultLimit : Q := (1 # 600)%Q.
Definition DefaultWindow : Z := 300000000000.
Definition DefaultPageThreshold : Z := 50.
Definition DefaultQueueCap : Z := 10000.

(** [blocked] is the [sync.Map] from client to [*rate.Limiter]; a call
    on a bucket writes the bucket's new state back under its key. *)
Record t : Type := {
  cfg : Config;
  blocked : gmap string bucket;
  kb : Validator;
  analyzer : Analyzer.t
}.

(** [New], once the options have settled the configuration and the
    validator, when it returns a limiter; [LimiterOptions.New] below is
    the whole of it. *)
Definition New (cfg0 : Config) (kb0 : Validator) : t :=
  {| cfg := cfg0;
     blocked := ∅;
     kb := kb0;
     analyzer :=
       Analyzer.New {| Analyzer.Window := Window cfg0;
                       Analyzer.PageThreshold := PageThreshold cfg0;
                       Analyzer.QueueCap := QueueCap cfg0 |} |}.

(** errors.go (src/unnamed/part_001) *)
Definition ErrLimit : error := DeadlineExceeded.

Definition set_blocked (m : gmap string bucket) (l : t) : t :=
  {| cfg := cfg l; blocked := m; kb := kb l; analyzer := analyzer l |}.

Definition set_analyzer (a : Analyzer.t) (l : t) : t :=
  {| cfg := cfg l; blocked := blocked l; kb := kb l; analyzer := a |}.

Definition getLimiter (ip : string) (l : t) : bucket * t :=
  match blocked l !! ip with
  | Some val => (val, l)
  | None =>
      let limiter := NewLimiter (Limit (cfg l)) 1 in
      (limiter, set_blocked (<[ip := limiter]> (blocked l)) l)
  end.

Definition allowBlocked (w : World) (ip : string) (l : t) : bool * t :=
  let '(limiter, l1) := getLimiter ip l in
  let '(ok, limiter1) := bucket_Allow (now w) limiter in
  (ok, set_blocked (<[ip := limiter1]> (blocked l1)) l1).

Definition waitBlocked (w : World) (ctx : Context) (ip : string) (l : t)
  : option error * t :=
  let '(limiter, l1) := getLimiter ip l in
  let '(err, limiter1) := bucket_Wait (now w) ctx limiter in
  (err, set_blocked (<[ip := limiter1]> (blocked l1)) l1).

Definition Close (l : t) : t :=
  {| cfg := cfg l; blocked := ∅; kb := kb l;
     analyzer := Analyzer.Close (analyzer l) |}.

Definition record (w : World) (ip ua : string) (l : t) : t :=
  set_analyzer (Analyzer.Record_ w ip ua (analyzer l)) l.

End WithEnv.
End Limiter.

(** ** limiter.go, oldest text (src/limiter.go:1-145) *)

Module LimiterRev1.
Section WithEnv.
Context `{Env}.
Import Limiter.

(** src/limiter.go:69-91 *)
Definition Allow (w : World) (ua ip : string) (l : t) : bool * t :=
  let botResult := kb l ua ip in
  if IsBot botResult then
    match Status botResult with
    | StatusVerified => (true, l)
    | _ => allowBlocked w ip l
    end
  else if Analyzer.Blocked ip (analyzer l) then allowBlocked w ip l
  else (true, record w ip ua l).

(** src/limiter.go:94-116 *)
Definition Wait (w : World) (ctx : Context) (ua ip : string) (l : t)
  : option error * t :=
  let botResult := kb l ua ip in
  if IsBot botResult then
    match Status botResult with
    | StatusVerified => (None, l)
    | _ => waitBlocked w ctx ip l
    end
  else if Analyzer.Blocked ip (analyzer l) then waitBlocked w ctx ip l
  else (None, record w ip ua l).

End WithEnv.
End LimiterRev1.

(** ** limiter.go, second text (src/limiter.go:146-299) *)

Module LimiterRev2.
Section WithEnv.
Context `{Env}.
Import Limiter.

(** src/limiter.go:212-239 *)
Definition Allow (w : World) (ua ip : string) (l : t) : bool * t :=
  let botResult := kb l ua ip in
  if IsBot botResult then
    match Status botResult with
    | StatusVerified => (true, l)
    | StatusPending => (true, l)
    | StatusFailed | StatusUnknown => (false, l)
    end
  else if Analyzer.Blocked ip (analyzer l) then allowBlocked w ip l
  else (true, record w ip ua l).

(** src/limiter.go:243-270 *)
Definition Wait (w : World) (ctx : Context) (ua ip : string) (l : t)
  : option error * t :=
  let botResult := kb l ua ip in
  if IsBot botResult then
    match Status botResult with
    | StatusVerified => (None, l)
    | StatusPending => (None, l)
    | StatusFailed | StatusUnknown => (Some ErrLimit, l)
    end
  else if Analyzer.Blocked ip (analyzer l) then waitBlocked w ctx ip l
  else (None, record w ip ua l).

End WithEnv.
End LimiterRev2.

(** ** limiter.go, newest text (src/go.mod:15-196) *)

Module LimiterRev3.
Section WithEnv.
Context `{Env}.
Import Limiter.

Definition Reason : Type := string.
Definition ReasonFakeBot : Reason := "fake_bot".
Definition ReasonRateLimited : Reason := "rate_limited".
Definition ReasonNone : Reason := EmptyString.

(** src/go.mod:98-128 *)
Definition Allow (w : World) (ua ip : string) (l : t)
  : (bool * Reason) * t :=
  let botResult := kb l ua ip in
  if IsBot botResult then
    match Status botResult with
    | StatusVerified => ((true, ReasonNone), l)
    | StatusPending => ((true, ReasonNone), l)
    | StatusFailed | StatusUnknown => ((false, ReasonFakeBot), l)
    end
  else if Analyzer.Blocked ip (analyzer l) then
    let '(ok, l1) := allowBlocked w ip l in
    if ok then ((true, ReasonNone), l1)
    else ((false, ReasonRateLimited), l1)
  else ((true, ReasonNone), record w ip ua l).

(** src/go.mod:134-167 *)
Definition Wait (w : World) (ctx : Context) (ua ip : string) (l : t)
  : (option error * Reason) * t :=
  let botResult := kb l ua ip in
  if IsBot botResult then
    match Status botResult with
    | StatusVerified => ((None, ReasonNone), l)
    | StatusPending => ((None, ReasonNone), l)
    | StatusFailed | StatusUnknown => ((Some ErrLimit, ReasonFakeBot), l)
    end
  else if Analyzer.Blocked ip (analyzer l) then
    let '(err, l1) := waitBlocked w ctx ip l in
    match err with
    | Some e => ((Some e, ReasonRateLimited), l1)
    | None => ((Some ErrLimit, ReasonRateLimited), l1)
    end
  else ((None, ReasonNone), record w ip ua l).

End WithEnv.
End LimiterRev3.

(** ** A concrete environment, for running the definitions

    A bucket that counts whole tokens on a clock of seconds, a polynomial
    hash, and probes derived from it. *)

Module Sample.

Record SimpleBucket : Type := {
  tokens : Z;
  burst : Z;
  interval : Z;   (* seconds per token *)
  last : Z
}.

Definition newBucket (r : Q) (b : Z) : SimpleBucket :=
  {| tokens := b; burst := b;
     interval := Z.max 1 (Z.pos (Qden r) / Z.max 1 (Qnum r));
     last := 0 |}.

Definition advance (t : Z) (s : SimpleBucket) : SimpleBucket :=
  let elapsed := Z.max 0 (t - last s) in
  let gained := elapsed / interval s in
  {| tokens := Z.min (burst s) (tokens s + gained);
     burst := burst s; interval := interval s;
     last := if 0 <? gained then t else last s |}.

Definition take (s : SimpleBucket) : SimpleBucket :=
  {| tokens := tokens s - 1; burst := burst s;
     interval := interval s; last := last s |}.

Definition allow (t : Z) (s : SimpleBucket) : bool * SimpleBucket :=
  let s1 := advance t s in
  if 1 <=? tokens s1 then (true, take s1) else (false, s1).

Definition wait (t : Z) (ctx : Context) (s : SimpleBucket)
  : option error * SimpleBucket :=
  match ctx_err ctx with
  | Some e => (Some e, s)
  | None =>
      let s1 := advance t s in
      if 1 <=? tokens s1 then (None, take s1)
      else
        let ready := last s1 + interval s1 in
        match ctx_deadline ctx with
        | Some d =>
            if d <? ready then
              (Some (ErrOther "rate: Wait(n=1) would exceed context deadline"),
               s1)
            else (None, take (advance ready s1))
        | None => (None, take (advance ready s1))
        end
  end.

Definition sum64 (sd : Z) (bs : list Z) : Z :=
  fold_left (fun h x => u64 (h * 31 + x)) bs (u64 sd).

Definition probe (key : list Z) (i : nat) : Z :=
  u64 (sum64 7 key + Z.of_nat i * (2 * sum64 11 key + 1)).

#[export] Instance env : Env := {|
  maphash_Sum64 := sum64;
  bloom_location := probe;
  bucket := SimpleBucket;
  NewLimiter := newBucket;
  bucket_Allow := allow;
  bucket_Wait := wait
|}.

(** A validator that knows one crawler by name and trusts one address. *)
Definition validator : Limiter.Validator :=
  fun ua ip =>
    if String.eqb ua "Googlebot/2.1" then
      if String.eqb ip "66.249.66.1" then
        {| Limiter.IsBot := true; Limiter.Status := Limiter.StatusVerified |}
      else if String.eqb ip "10.0.0.1" then
        {| Limiter.IsBot := true; Limiter.Status := Limiter.StatusPending |}
      else if String.eqb ip "10.0.0.2" then
        {| Limiter.IsBot := true; Limiter.Status := Limiter.StatusUnknown |}
      else
        {| Limiter.IsBot := true; Limiter.Status := Limiter.StatusFailed |}
    else
      {| Limiter.IsBot := false; Limiter.Status := Limiter.StatusUnknown |}.

Definition config : Limiter.Config :=
  {| Limiter.Limit := Limiter.DefaultLimit;
     Limiter.Window := Limiter.DefaultWindow;
     Limiter.PageThreshold := 3;
     Limiter.QueueCap := 2 |}.

Definition limiter : Limiter.t := Limiter.New config validator.

Definition world : World := {| now := 0; seed := 42 |}.

Definition strictConfig : Analyzer.Config :=
  {| Analyzer.Window := 1000000000;
     Analyzer.PageThreshold := 1;
     Analyzer.QueueCap := 2 |}.

Definition sampleRequest : Analyzer.Request :=
  {| Analyzer.IP := "1.2.3.4"; Analyzer.Path := Analyzer.hashStr world "/a" |}.

Definition scenarioConfig : Analyzer.Config :=
  {| Analyzer.Window := 1000000000;
     Analyzer.PageThreshold := 3;
     Analyzer.QueueCap := 16 |}.

(** A client records the pages, then the worker takes them off the queue
    one by one. *)
Definition recordAndAnalyze (w : World) (ip : string) (pages : list string)
    (a : Analyzer.t) : Analyzer.t :=
  Analyzer.run (map (fun p => Analyzer.WorkerRecv w) pages)
    (Analyzer.run (map (fun p => Analyzer.CallRecord w ip p) pages) a).

(** A limiter whose analyzer has put one browsing client on the
    blocklist. *)
Definition blockedLimiter : Limiter.t :=
  Limiter.set_analyzer
    (Analyzer.block "198.51.100.7" (Limiter.analyzer limiter)) limiter.

End Sample.

(** ** Runs of the counter

    What a caller can do to a [Counter] once it is made. *)

Module CounterOps.

Inductive op : Type :=
  | OpVisit (ip : string)
  | OpCount (ip : string)
  | OpClear.

Definition apply (o : op) (c : Counter.t) : Counter.t :=
  match o with
  | OpVisit ip => (Counter.Visit ip c).2
  | OpCount _ => c
  | OpClear => Counter.Clear c
  end.

Definition runOps (os : list op) (c : Counter.t) : Counter.t :=
  foldl (fun c o => apply o c) c os.

End CounterOps.

(** ** Little-endian bytes

    [leBytes n v] are the [n] low bytes of [v], lowest first, as
    [u64ToBytes] lists them for [n = 8]; [leValue] reads such a list
    back. *)

Fixpoint leBytes (n : nat) (v : Z) : list Z :=
  match n with
  | O => []
  | S m => byte v :: leBytes m (v / 256)
  end.

Fixpoint leValue (bs : list Z) : Z :=
  match bs with
  | [] => 0
  | b :: r => b + 256 * leValue r
  end.

(** ** What a run of the analyzer recorded *)

Definition recordedIP (e : Analyzer.event) : option string :=
  match e with
  | Analyzer.CallRecord _ ip _ => Some ip
  | _ => None
  end.

Definition recordedIPs (es : list Analyzer.event) : gset string :=
  list_to_set (omap recordedIP es).

(** The requests a list of [Record] calls would enqueue, in order. *)
Definition requestsOf `{Env} (recs : list (World * string * string))
  : list Analyzer.Request :=
  map (fun r => {| Analyzer.IP := r.1.2;
                   Analyzer.Path := Analyzer.hashStr r.1.1 r.2 |}) recs.

Definition recordCalls (recs : list (World * string * string))
  : list Analyzer.event :=
  map (fun r => Analyzer.CallRecord r.1.1 r.1.2 r.2) recs.

(** ** options.go, and [New] of the newest limiter.go (src/go.mod:63-92)

    An [Option] is a function on the limiter under construction, of which
    only the configuration and the validator exist yet; [b_kb] is [None]
    for a [nil] validator. *)

Module LimiterOptions.
Section WithEnv.
Context `{Env}.
Import Limiter.

Record Builder : Type := { b_cfg : Config; b_kb : option Validator }.

Definition Option : Type := Builder -> Builder.

Definition WithLimit (limit : Q) : Option :=
  fun l =>
    {| b_cfg := {| Limit := limit;
                   Window := Window (b_cfg l);
                   PageThreshold := PageThreshold (b_cfg l);
                   QueueCap := QueueCap (b_cfg l) |};
       b_kb := b_kb l |}.

Definition WithAnalyzerWindow (window : Z) : Option :=
  fun l =>
    {| b_cfg := {| Limit := Limit (b_cfg l);
                   Window := window;
                   PageThreshold := PageThreshold (b_cfg l);
                   QueueCap := QueueCap (b_cfg l) |};
       b_kb := b_kb l |}.

Definition WithAnalyzerPageThreshold (threshold : Z) : Option :=
  fun l =>
    {| b_cfg := {| Limit := Limit (b_cfg l);
                   Window := Window (b_cfg l);
                   PageThreshold := threshold;
                   QueueCap := QueueCap (b_cfg l) |};
       b_kb := b_kb l |}.

Definition WithAnalyzerQueueCap (cap : Z) : Option :=
  fun l =>
    {| b_cfg := {| Limit := Limit (b_cfg l);
                   Window := Window (b_cfg l);
                   PageThreshold := PageThreshold (b_cfg l);
                   QueueCap := cap |};
       b_kb := b_kb l |}.

Definition WithKnownbots (kb0 : option Validator) : Option :=
  fun l => {| b_cfg := b_cfg l; b_kb := kb0 |}.

Definition defaults : Builder :=
  {| b_cfg := {| Limit := DefaultLimit;
                 Window := DefaultWindow;
                 PageThreshold := DefaultPageThreshold;
                 QueueCap := DefaultQueueCap |};
     b_kb := None |}.

(** The loop [for _, opt := range opts { opt(l) }]. *)
Definition applyOptions (opts : list Option) : Builder :=
  foldl (fun l opt => opt l) defaults opts.

(** What a call of [New] ends in: the limiter, the error of
    [knownbots.New], or a panic raised while the analyzer is built. *)
Inductive outcome : Type :=
  | Built (l : t)
  | Failed (err : error)
  | Panicked (p : Analyzer.panic).

(** [New]; [knownbots_New] is what [knownbots.New()] returns if it is
    called.  The validator is settled first, so its error comes before
    any panic of [analyzer.New]. *)
Definition New (opts : list Option) (knownbots_New : Validator + error)
  : outcome :=
  let l := applyOptions opts in
  let build (kb0 : Validator) : outcome :=
    match Analyzer.startup
            {| Analyzer.Window := Window (b_cfg l);
               Analyzer.PageThreshold := PageThreshold (b_cfg l);
               Analyzer.QueueCap := QueueCap (b_cfg l) |} with
    | Some p => Panicked p
    | None => Built (Limiter.New (b_cfg l) kb0)
    end in
  match b_kb l with
  | Some kb0 => build kb0
  | None =>
      match knownbots_New with
      | inl kb0 => build kb0
      | inr err => Failed err
      end
  end.

(** The five options of options.go, as data. *)
Inductive Setting : Type :=
  | SetLimit (limit : Q)
  | SetWindow (window : Z)
  | SetPageThreshold (threshold : Z)
  | SetQueueCap (cap : Z)
  | SetKnownbots (kb0 : option Validator).

Definition toOption (s : Setting) : Option :=
  match s with
  | SetLimit limit => WithLimit limit
  | SetWindow window => WithAnalyzerWindow window
  | SetPageThreshold threshold => WithAnalyzerPageThreshold threshold
  | SetQueueCap cap => WithAnalyzerQueueCap cap
  | SetKnownbots kb0 => WithKnownbots kb0
  end.

Definition limitOf (s : Setting) : option Q :=
  match s with SetLimit x => Some x | _ => None end.
Definition windowOf (s : Setting) : option Z :=
  match s with SetWindow x => Some x | _ => None end.
Definition pageThresholdOf (s : Setting) : option Z :=
  match s with SetPageThreshold x => Some x | _ => None end.
Definition queueCapOf (s : Setting) : option Z :=
  match s with SetQueueCap x => Some x | _ => None end.
Definition knownbotsOf (s : Setting) : option (option Validator) :=
  match s with SetKnownbots x => Some x | _ => None end.

End WithEnv.
End LimiterOptions.

(** ** Runs of the newest limiter

    The calls of its clients, and the three cases of the worker of its
    analyzer, which nothing but the limiter can reach. *)

Module LimiterRun.
Section WithEnv.
Context `{Env}.
Import Limiter.

Inductive workerEvent : Type :=
  | Recv (w : World)
  | Tick
  | Stop.

Definition ofWorker (e : workerEvent) : Analyzer.event :=
  match e with
  | Recv w => Analyzer.WorkerRecv w
  | Tick => Analyzer.WorkerTick
  | Stop => Analyzer.WorkerStop
  end.

Inductive event : Type :=
  | CallAllow (w : World) (ua ip : string)
  | CallWait (w : World) (ctx : Context) (ua ip : string)
  | CallClose
  | Worker (e : workerEvent).

Definition step (e : event) (l : t) : t :=
  match e with
  | CallAllow w ua ip => (LimiterRev3.Allow w ua ip l).2
  | CallWait w ctx ua ip => (LimiterRev3.Wait w ctx ua ip l).2
  | CallClose => Close l
  | Worker e0 => set_analyzer (Analyzer.step (ofWorker e0) (analyzer l)) l
  end.

Definition run (es : list event) (l : t) : t :=
  foldl (fun l e => step e l) l es.

(** The client of a call that the validator does not take for a bot. *)
Definition normalClient (kb0 : Validator) (e : event) : option string :=
  match e with
  | CallAllow _ ua ip | CallWait _ _ ua ip =>
      if IsBot (kb0 ua ip) then None else Some ip
  | _ => None
  end.

Definition normalClients (kb0 : Validator) (es : list event) : gset string :=
  list_to_set (omap (normalClient kb0) es).

(** The analyzer's configuration as [New] copies it from the limiter's. *)
Definition analyzerConfig (c : Config) : Analyzer.Config :=
  {| Analyzer.Window := Window c;
     Analyzer.PageThreshold := PageThreshold c;
     Analyzer.QueueCap := QueueCap c |}.

End WithEnv.
End LimiterRun.

(** * Properties *)

(** ** The visit counter *)

Section CounterFacts.
Import Counter.

Lemma u16_succ (z : Z) : u16 (u16 z + 1) = u16 (z + 1).
Proof. unfold u16. apply Zplus_mod_idemp_l. Qed.

Lemma u16_small (z : Z) : 0 <= z < 65536 -> u16 z = z.
Proof. intros Hz. unfold u16. apply Z.mod_small. exact Hz. Qed.

Lemma Visit_absent (ip : string) (c : t) :
  ip ∉ index c ->
  (Visit ip c).1 = 1 /\
  data (Visit ip c).2 !! ip = Some 1 /\
  ip ∈ index (Visit ip c).2.
Proof.
  intros Hnot. unfold Visit.
  destruct (decide (ip ∈ index c)) as [Hin|_]; [contradiction|].
  cbn. split; [reflexivity|]. split.
  - apply lookup_insert_eq.
  - set_solver.
Qed.

Lemma Visit_present (ip : string) (c : t) :
  ip ∈ index c ->
  (Visit ip c).1 = u16 (default 0 (data c !! ip) + 1) /\
  data (Visit ip c).2 !! ip = Some (u16 (default 0 (data c !! ip) + 1)) /\
  index (Visit ip c).2 = index c.
Proof.
  intros Hin. unfold Visit.
  destruct (decide (ip ∈ index c)) as [_|Hnot]; [|contradiction].
  cbn. split; [reflexivity|]. split; [apply lookup_insert_eq|reflexivity].
Qed.

(** The [n]-th consecutive visit of a client that had no entry returns
    [n] reduced to sixteen bits. *)
Lemma VisitN_count (ip : string) (c : t) (n : nat) :
  ip ∉ index c ->
  (1 <= n)%nat ->
  (VisitN n ip c).1 = u16 (Z.of_nat n) /\
  data (VisitN n ip c).2 !! ip = Some (u16 (Z.of_nat n)) /\
  ip ∈ index (VisitN n ip c).2.
Proof.
  intros Hnot Hn. induction n as [|m IH]; [lia|].
  destruct m as [|k].
  - cbn [VisitN snd]. apply (Visit_absent ip c Hnot).
  - destruct IH as (_ & Hdata & Hidx); [lia|].
    change (VisitN (S (S k)) ip c) with (Visit ip (VisitN (S k) ip c).2).
    destruct (Visit_present ip _ Hidx) as (Hr & Hd & Hi).
    rewrite Hdata in Hr, Hd. cbn [from_option id] in Hr, Hd.
    rewrite u16_succ in Hr, Hd.
    replace (Z.of_nat (S (S k))) with (Z.of_nat (S k) + 1) by lia.
    split; [exact Hr|]. split; [exact Hd|]. rewrite Hi. exact Hidx.
Qed.

(** *** Well-formedness and the size bound *)

Lemma elem_of_unlink (v x : string) (l : list string) :
  NoDup l -> x ∈ GoList.unlink v l <-> x ∈ l /\ x <> v.
Proof.
  induction l as [|a r IH]; intros Hnd; cbn [GoList.unlink].
  - set_solver.
  - apply NoDup_cons in Hnd as [Ha Hr].
    destruct (decide (a = v)) as [->|Hne].
    + set_solver.
    + specialize (IH Hr). set_solver.
Qed.

Lemma NoDup_unlink (v : string) (l : list string) :
  NoDup l -> NoDup (GoList.unlink v l).
Proof.
  induction l as [|a r IH]; intros Hnd; cbn [GoList.unlink]; [constructor|].
  pose proof Hnd as Hnd'. apply NoDup_cons in Hnd as [Ha Hr].
  destruct (decide (a = v)) as [->|Hne]; [exact Hr|].
  apply NoDup_cons. split; [|exact (IH Hr)].
  intros Hin. apply (elem_of_unlink v a r Hr) in Hin. tauto.
Qed.

Lemma wf_size (c : t) : wf c -> size (data c) = length (lru c).
Proof.
  intros (Hnd & Hidx & Hdom).
  rewrite <- (size_dom (D := gset string)), Hdom, Hidx.
  apply size_list_to_set, Hnd.
Qed.

Lemma evict_wf (c : t) : wf c -> wf (evict c).
Proof.
  intros Hwf. unfold evict.
  destruct (Z.of_nat (size (data c)) >=? maxSize c); [|exact Hwf].
  unfold GoList.Back. destruct (last (lru c)) as [tailIP|] eqn:Hlast;
    [|exact Hwf].
  destruct Hwf as (Hnd & Hidx & Hdom).
  apply last_Some in Hlast as [l' Hl'].
  unfold wf, GoList.RemoveBack. cbn.
  rewrite Hl' in *. rewrite removelast_last.
  apply NoDup_app in Hnd as (Hnd' & Hdisj & _).
  split; [exact Hnd'|]. split.
  - rewrite Hidx, list_to_set_snoc_L.
    assert (tailIP ∉ l') by (intros Hin; apply (Hdisj _ Hin); set_solver).
    set_solver.
  - rewrite dom_delete_L, Hdom. reflexivity.
Qed.

Lemma evict_maxSize (c : t) : maxSize (evict c) = maxSize c.
Proof.
  unfold evict. destruct (_ >=? _); [|reflexivity].
  destruct (GoList.Back (lru c)); reflexivity.
Qed.

Lemma Visit_maxSize (ip : string) (c : t) :
  maxSize (Visit ip c).2 = maxSize c.
Proof.
  unfold Visit. destruct (decide (ip ∈ index c)); cbn; [reflexivity|].
  apply evict_maxSize.
Qed.

Lemma evict_index_subseteq (c : t) : index (evict c) ⊆ index c.
Proof.
  unfold evict. destruct (_ >=? _); [|reflexivity].
  destruct (GoList.Back (lru c)); cbn; set_solver.
Qed.

Lemma Visit_wf (ip : string) (c : t) : wf c -> wf (Visit ip c).2.
Proof.
  intros Hwf. unfold Visit.
  destruct (decide (ip ∈ index c)) as [Hin|Hnot]; cbn [snd].
  - destruct Hwf as (Hnd & Hidx & Hdom).
    assert (Hl : ip ∈ lru c) by (rewrite Hidx in Hin; set_solver).
    unfold wf, GoList.MoveToFront. cbn.
    destruct (decide (ip ∈ lru c)) as [_|Hn]; [|contradiction].
    split; [|split].
    + apply NoDup_cons. split; [|apply NoDup_unlink, Hnd].
      intros H'. apply (elem_of_unlink ip ip _ Hnd) in H'. tauto.
    + rewrite Hidx. apply set_eq. intros x.
      rewrite list_to_set_cons, elem_of_union, !elem_of_list_to_set,
        elem_of_singleton, (elem_of_unlink ip x _ Hnd).
      destruct (decide (x = ip)) as [->|Hne]; tauto.
    + rewrite dom_insert_L, Hdom. set_solver.
  - pose proof (evict_wf c Hwf) as (Hnd & Hidx & Hdom).
    pose proof (evict_index_subseteq c) as Hsub.
    unfold wf, GoList.PushFront. cbn.
    split; [|split].
    + apply NoDup_cons. split; [|exact Hnd].
      intros Hin. apply Hnot, Hsub. rewrite Hidx. set_solver.
    + rewrite Hidx. reflexivity.
    + rewrite dom_insert_L, Hdom. reflexivity.
Qed.

Lemma evict_size (c : t) :
  wf c -> 1 <= maxSize c -> Z.of_nat (size (data c)) <= maxSize c ->
  Z.of_nat (size (data (evict c))) < maxSize c.
Proof.
  intros Hwf Hpos Hle. unfold evict.
  destruct (Z.of_nat (size (data c)) >=? maxSize c) eqn:Hfull; [|lia].
  pose proof (wf_size c Hwf) as Hsz.
  unfold GoList.Back. destruct (last (lru c)) as [tailIP|] eqn:Hlast.
  - cbn. destruct Hwf as (Hnd & Hidx & Hdom).
    assert (Hin : tailIP ∈ dom (data c)).
    { rewrite Hdom, Hidx. apply elem_of_list_to_set.
      apply last_Some in Hlast as [l' ->]. set_solver. }
    apply elem_of_dom in Hin as [v Hv].
    rewrite map_size_delete, Hv.
    assert (size (data c) <> 0)%nat.
    { intros H0. apply map_size_empty_inv in H0. rewrite H0 in Hv.
      rewrite lookup_empty in Hv. discriminate. }
    lia.
  - apply last_None in Hlast. rewrite Hlast in Hsz. cbn in Hsz. lia.
Qed.

Lemma Visit_size (ip : string) (c : t) :
  wf c -> 1 <= maxSize c -> Z.of_nat (size (data c)) <= maxSize c ->
  Z.of_nat (size (data (Visit ip c).2)) <= maxSize c.
Proof.
  intros Hwf Hpos Hle. unfold Visit.
  destruct (decide (ip ∈ index c)) as [Hin|Hnot]; cbn [snd data].
  - destruct Hwf as (_ & _ & Hdom). rewrite <- Hdom in Hin.
    apply elem_of_dom in Hin as [v Hv].
    rewrite map_size_insert, Hv. exact Hle.
  - pose proof (evict_size c Hwf Hpos Hle) as Hlt.
    pose proof (map_size_insert ip 1 (data (evict c))) as Hins.
    destruct (data (evict c) !! ip); cbn [id] in Hins; unfold id in Hins; lia.
Qed.

Lemma VisitAll_snoc (ips : list string) (ip : string) (c : t) :
  VisitAll (ips ++ [ip]) c = (Visit ip (VisitAll ips c)).2.
Proof. unfold VisitAll. rewrite foldl_snoc. reflexivity. Qed.

(** Whatever is visited, in whatever order, a counter of positive
    capacity stays well formed and within its capacity. *)
Lemma VisitAll_bounded (ips : list string) (c : t) :
  wf c -> 1 <= maxSize c -> Z.of_nat (size (data c)) <= maxSize c ->
  wf (VisitAll ips c) /\
  maxSize (VisitAll ips c) = maxSize c /\
  Z.of_nat (size (data (VisitAll ips c))) <= maxSize c.
Proof.
  intros Hwf Hpos Hle. induction ips as [|ip ips IH] using rev_ind.
  - cbn. auto.
  - destruct IH as (Hwf' & Hmax & Hsz). rewrite VisitAll_snoc.
    split; [apply Visit_wf, Hwf'|]. split.
    + rewrite Visit_maxSize. exact Hmax.
    + rewrite <- Hmax. apply Visit_size; rewrite ?Hmax; assumption.
Qed.

(** Clients that are all new and fit go to the front one after the
    other, and nobody is evicted. *)
Lemma VisitAll_fresh (ips : list string) (c : t) :
  wf c -> NoDup ips -> (forall ip, ip ∈ ips -> ip ∉ index c) ->
  Z.of_nat (length (lru c) + length ips) <= maxSize c ->
  lru (VisitAll ips c) = reverse ips ++ lru c /\
  wf (VisitAll ips c) /\
  maxSize (VisitAll ips c) = maxSize c.
Proof.
  intros Hwf. induction ips as [|ip ips IH] using rev_ind;
    intros Hnd Hnew Hfit.
  - cbn. auto.
  - apply NoDup_app in Hnd as (Hnd & Hdisj & _).
    rewrite length_app in Hfit. cbn in Hfit.
    destruct IH as (Hlru & Hwf' & Hmax);
      [exact Hnd | intros x Hx; apply Hnew; set_solver | lia |].
    rewrite VisitAll_snoc.
    split; [|split; [apply Visit_wf, Hwf'|rewrite Visit_maxSize; exact Hmax]].
    assert (Hnot : ip ∉ index (VisitAll ips c)).
    { destruct Hwf' as (_ & Hidx & _). rewrite Hidx, Hlru.
      rewrite elem_of_list_to_set, elem_of_app, elem_of_reverse.
      intros [Hin|Hin].
      - apply (Hdisj _ Hin). set_solver.
      - destruct Hwf as (_ & Hidx0 & _).
        apply (Hnew ip); [set_solver|]. rewrite Hidx0. set_solver. }
    unfold Visit. destruct (decide (ip ∈ index (VisitAll ips c)));
      [contradiction|]. cbn [snd lru].
    unfold evict. rewrite (wf_size _ Hwf'), Hlru, Hmax.
    rewrite length_app, length_reverse.
    destruct (_ >=? _) eqn:Hfull.
    { apply Z.geb_le in Hfull. lia. }
    unfold GoList.PushFront. rewrite Hlru, reverse_snoc. reflexivity.
Qed.

(** ... and each of them is counted once, next to what was counted
    before. *)
Lemma VisitAll_fresh_data (ips : list string) (c : t) :
  wf c -> NoDup ips -> (forall ip, ip ∈ ips -> ip ∉ index c) ->
  Z.of_nat (length (lru c) + length ips) <= maxSize c ->
  forall ip : string,
    data (VisitAll ips c) !! ip
    = if decide (ip ∈ ips) then Some 1 else data c !! ip.
Proof.
  intros Hwf. induction ips as [|x ips IH] using rev_ind;
    intros Hnd Hnew Hfit ip.
  - cbn. destruct (decide (ip ∈ [])) as [Hin|_]; [set_solver|reflexivity].
  - pose proof Hnd as Hnd0.
    apply NoDup_app in Hnd as (Hnd & Hdisj & _).
    rewrite length_app in Hfit. cbn in Hfit.
    assert (Hnew' : forall y, y ∈ ips -> y ∉ index c)
      by (intros y Hy; apply Hnew; set_solver).
    assert (Hfit' : Z.of_nat (length (lru c) + length ips) <= maxSize c)
      by lia.
    specialize (IH Hnd Hnew' Hfit' ip).
    destruct (VisitAll_fresh ips c Hwf Hnd Hnew' Hfit')
      as (Hlru & Hwf' & Hmax).
    rewrite VisitAll_snoc.
    assert (Hnot : x ∉ index (VisitAll ips c)).
    { destruct Hwf' as (_ & Hidx & _). rewrite Hidx, Hlru.
      rewrite elem_of_list_to_set, elem_of_app, elem_of_reverse.
      intros [Hin|Hin].
      - apply (Hdisj _ Hin). set_solver.
      - destruct Hwf as (_ & Hidx0 & _).
        apply (Hnew x); [set_solver|]. rewrite Hidx0. set_solver. }
    unfold Visit. destruct (decide (x ∈ index (VisitAll ips c)));
      [contradiction|]. cbn [snd data].
    unfold evict. rewrite (wf_size _ Hwf'), Hlru, Hmax.
    rewrite length_app, length_reverse.
    destruct (_ >=? _) eqn:Hfull.
    { apply Z.geb_le in Hfull. lia. }
    destruct (decide (ip = x)) as [->|Hne].
    + rewrite lookup_insert_eq.
      destruct (decide (x ∈ ips ++ [x])) as [_|Hn]; [reflexivity|set_solver].
    + rewrite lookup_insert_ne by congruence. rewrite IH.
      destruct (decide (ip ∈ ips)) as [Hin|Hin];
        destruct (decide (ip ∈ ips ++ [x])) as [Hin'|Hin'];
        try reflexivity; set_solver.
Qed.

End CounterFacts.

Section CounterTheorems.
Import Counter.

Lemma NewCounter_wf (n : Z) : wf (setMaxSize n NewCounter).
Proof. unfold wf. cbn. split; [constructor|]. split; set_solver. Qed.

(** C8 (as amended).  For a client that has no entry, the first [Visit]
    returns 1 and the [n]-th consecutive [Visit] returns [n] reduced
    modulo 65536, the width of the [uint16] count; it returns [n]
    itself for every [n] up to 65535. *)
Theorem Visit_nth_returns_n_mod_u16 (c : t) (ip : string) :
  ip ∉ index c ->
  (Visit ip c).1 = 1 /\
  (forall n : nat, (1 <= n)%nat ->
     (VisitN n ip c).1 = Z.of_nat n mod 65536) /\
  (forall n : nat, 1 <= Z.of_nat n <= 65535 ->
     (VisitN n ip c).1 = Z.of_nat n).
Proof.
  intros Hnot. split; [apply (Visit_absent ip c Hnot)|]. split.
  - intros n Hn. apply (VisitN_count ip c n Hnot Hn).
  - intros n Hn.
    destruct (VisitN_count ip c n Hnot) as (Hr & _); [lia|].
    rewrite Hr. apply u16_small. lia.
Qed.

Lemma Visit_nth_returns_n_mod_u16_witness :
  ("192.168.1.1" ∉ index NewCounter) /\
  (VisitN 3 "192.168.1.1" NewCounter).1 = 3.
Proof.
  assert (Hnot : "192.168.1.1" ∉ index NewCounter) by (cbn; set_solver).
  split; [exact Hnot|].
  destruct (Visit_nth_returns_n_mod_u16 NewCounter "192.168.1.1" Hnot)
    as (_ & _ & Hsmall).
  apply (Hsmall 3%nat). lia.
Defined.

(** C8, as stated, fails: the 65536-th consecutive visit of a client
    returns 0, not 65536. *)
Lemma Visit_65536th_returns_zero :
  (VisitN (Z.to_nat 65536) "192.168.1.1" NewCounter).1 = 0 /\
  (VisitN (Z.to_nat 65536) "192.168.1.1" NewCounter).1
    <> Z.of_nat (Z.to_nat 65536).
Proof.
  assert (Hnot : "192.168.1.1" ∉ index NewCounter) by (cbn; set_solver).
  destruct (VisitN_count "192.168.1.1" NewCounter (Z.to_nat 65536) Hnot)
    as (Hr & _); [lia|].
  rewrite Hr, Z2Nat.id by lia. split; [reflexivity|discriminate].
Qed.

(** C9 (as amended).  In a counter of capacity [N >= 1] that starts
    empty, [N + 1] distinct clients are visited once each.  After the
    first [N] of them all [N] are held, each with count 1.  After the
    last one the client visited first is gone from the map, the index and
    the list, and its [Count] is 0; the other [N] clients are still held,
    each with count 1, in the order of their visits, most recent first.
    And whatever is visited, repeats included, the counter never holds
    more than [N] clients. *)
Theorem Visit_evicts_least_recent (N : nat) (ips : list string)
    (first : string) :
  (1 <= N)%nat ->
  NoDup ips ->
  length ips = S N ->
  head ips = Some first ->
  let c0 := setMaxSize (Z.of_nat N) NewCounter in
  let cN := VisitAll (take N ips) c0 in
  let c1 := VisitAll ips c0 in
  (forall ip : string,
     ip ∈ take N ips -> ip ∈ index cN /\ Count ip cN = 1) /\
  size (data cN) = N /\
  Count first c1 = 0 /\
  (first ∉ index c1) /\
  (first ∉ lru c1) /\
  (forall ip : string,
     ip ∈ ips -> ip <> first -> ip ∈ index c1 /\ Count ip c1 = 1) /\
  size (data c1) = N /\
  lru c1 = reverse (tail ips) /\
  (forall vs : list string, (size (data (VisitAll vs c0)) <= N)%nat).
Proof.
  intros HN Hnd Hlen Hhead c0 cN c1.
  assert (Hwf0 : wf c0) by apply NewCounter_wf.
  assert (Hbound : forall vs : list string,
             (size (data (VisitAll vs c0)) <= N)%nat).
  { intros vs.
    destruct (VisitAll_bounded vs c0 Hwf0) as (_ & _ & Hsz);
      cbn; [lia | rewrite map_size_empty; lia |].
    cbn in Hsz. lia. }
  destruct ips as [|x l _] using rev_ind; [discriminate|].
  rewrite length_app in Hlen; cbn in Hlen.
  assert (HlN : length l = N) by lia.
  assert (Htake : take N (l ++ [x]) = l)
    by (rewrite <- HlN; apply take_app_length).
  subst cN c1. rewrite Htake.
  apply NoDup_app in Hnd as (Hndl & Hdisj & _).
  destruct l as [|f l']; [cbn in HlN; lia|].
  cbn in Hhead. injection Hhead as ->.
  set (l := first :: l') in *.
  assert (Hne : x <> first)
    by (intros ->; apply (Hdisj first); subst l; set_solver).
  assert (Hnew : forall ip, ip ∈ l -> ip ∉ index c0)
    by (intros ip _; cbn; set_solver).
  assert (Hfit : Z.of_nat (length (lru c0) + length l) <= maxSize c0)
    by (cbn [c0 lru setMaxSize NewCounter maxSize length]; lia).
  destruct (VisitAll_fresh l c0 Hwf0 Hndl Hnew Hfit) as (Hlru & Hwf & Hmax).
  pose proof (VisitAll_fresh_data l c0 Hwf0 Hndl Hnew Hfit) as Hdata.
  cbn [c0 lru setMaxSize NewCounter maxSize] in Hlru, Hmax.
  rewrite app_nil_r in Hlru.
  assert (HsizeN : size (data (VisitAll l c0)) = N)
    by (rewrite (wf_size _ Hwf), Hlru, length_reverse; exact HlN).
  assert (Hidx : index (VisitAll l c0) = list_to_set l).
  { destruct Hwf as (_ & Hi & _). rewrite Hi, Hlru.
    apply set_eq. intros y.
    rewrite !elem_of_list_to_set, elem_of_reverse. reflexivity. }
  assert (Hnot : x ∉ index (VisitAll l c0)).
  { rewrite Hidx, elem_of_list_to_set. intros Hin.
    apply (Hdisj _ Hin). set_solver. }
  (* the state after the last visit *)
  assert (Hlast : (Visit x (VisitAll l c0)).2
                  = {| maxSize := Z.of_nat N;
                       data := <[x := 1]> (delete first (data (VisitAll l c0)));
                       lru := x :: reverse l';
                       index := {[x]} ∪ (index (VisitAll l c0) ∖ {[first]}) |}).
  { unfold Visit. destruct (decide (x ∈ index (VisitAll l c0)));
      [contradiction|]. cbn [snd].
    unfold evict. rewrite HsizeN, Hmax.
    destruct (_ >=? _) eqn:Hfull;
      [|exfalso; revert Hfull;
        destruct (Z.geb_spec (Z.of_nat N) (Z.of_nat N));
        [discriminate|lia]].
    unfold GoList.Back, GoList.RemoveBack, GoList.PushFront.
    rewrite Hlru. subst l. rewrite reverse_cons, last_snoc.
    cbn [maxSize data lru index]. rewrite removelast_last. reflexivity. }
  rewrite VisitAll_snoc, Hlast. unfold Count. cbn [data index lru tail].
  split.
  { intros ip Hin. split.
    - rewrite Hidx, elem_of_list_to_set. exact Hin.
    - rewrite Hdata. destruct (decide (ip ∈ l)); [reflexivity|contradiction]. }
  split; [exact HsizeN|].
  split.
  { rewrite lookup_insert_ne by exact Hne.
    rewrite lookup_delete_eq. reflexivity. }
  split; [set_solver|].
  split.
  { rewrite elem_of_cons, elem_of_reverse. intros [Heq|Hin]; [congruence|].
    apply NoDup_cons in Hndl as (Hf & _). contradiction. }
  split.
  { intros ip Hin Hipf. split.
    - rewrite Hidx. apply elem_of_app in Hin as [Hin|Hin]; [|set_solver].
      apply elem_of_union_r, elem_of_difference.
      rewrite elem_of_list_to_set. set_solver.
    - destruct (decide (ip = x)) as [->|Hipx].
      + rewrite lookup_insert_eq. reflexivity.
      + rewrite lookup_insert_ne by congruence.
        rewrite lookup_delete_ne by congruence.
        rewrite Hdata. apply elem_of_app in Hin as [Hin|Hin]; [|set_solver].
        destruct (decide (ip ∈ l)); [reflexivity|contradiction]. }
  split.
  { assert (Hf : is_Some (data (VisitAll l c0) !! first)).
    { rewrite Hdata. destruct (decide (first ∈ l)) as [_|Hn];
        [eauto|subst l; set_solver]. }
    destruct Hf as [v Hv].
    rewrite map_size_insert, lookup_delete_ne by congruence.
    assert (Hx : data (VisitAll l c0) !! x = None).
    { rewrite Hdata. destruct (decide (x ∈ l)) as [Hin|_]; [|reflexivity].
      exfalso. apply (Hdisj _ Hin). set_solver. }
    rewrite Hx. rewrite map_size_delete, Hv. lia. }
  split; [|exact Hbound].
  subst l. cbn [tail app]. rewrite reverse_snoc. reflexivity.
Qed.

Lemma Visit_evicts_least_recent_witness :
  Count "A" (VisitAll ["A"; "B"; "C"; "D"] (setMaxSize 3 NewCounter)) = 0 /\
  Count "B" (VisitAll ["A"; "B"; "C"; "D"] (setMaxSize 3 NewCounter)) = 1.
Proof.
  destruct (Visit_evicts_least_recent 3 ["A"; "B"; "C"; "D"] "A")
    as (_ & _ & Hfirst & _ & _ & Hkept & _).
  - lia.
  - repeat (apply NoDup_cons; split; [set_solver|]). constructor.
  - reflexivity.
  - reflexivity.
  - split; [exact Hfirst|].
    destruct (Hkept "B") as (_ & HB);
      [clear; set_solver|discriminate|exact HB].
Defined.

(** C9, as stated for every capacity, fails at capacity 0, which the
    tests of the package set: the eviction finds nothing to evict in an
    empty list and the client is stored all the same, so that after
    0 + 1 clients the counter holds one client, more than its capacity,
    and the [Count] of the client visited first is 1, not 0. *)
Example Visit_zero_capacity_holds_one :
  size (data (Visit "192.168.1.1" (setMaxSize 0 NewCounter)).2) = 1%nat /\
  Count "192.168.1.1" (VisitAll ["192.168.1.1"] (setMaxSize 0 NewCounter))
  = 1 /\
  maxSize (VisitAll ["192.168.1.1"] (setMaxSize 0 NewCounter)) = 0.
Proof. vm_compute. repeat split; reflexivity. Qed.

End CounterTheorems.

(** ** The dedup filter *)

Section BloomFacts.
Context `{Env}.

Lemma New_valid (m0 : Z) (k0 : nat) : Bloom.valid (Bloom.New m0 k0).
Proof. unfold Bloom.valid, Bloom.New. cbn. lia. Qed.

Lemma Add_valid (f : Bloom.BloomFilter) (key : list Z) :
  Bloom.valid f -> Bloom.valid (Bloom.Add f key).
Proof. intros Hv. exact Hv. Qed.

Lemma locations_Add (f : Bloom.BloomFilter) (key key' : list Z) :
  Bloom.locations (Bloom.Add f key) key' = Bloom.locations f key'.
Proof. reflexivity. Qed.

Lemma locations_nonneg (f : Bloom.BloomFilter) (key : list Z) (x : Z) :
  Bloom.valid f -> x ∈ Bloom.locations f key -> 0 <= x.
Proof.
  intros [Hm _] Hin. unfold Bloom.locations in Hin.
  apply list_elem_of_In, in_map_iff in Hin as (i & <- & _).
  apply Z.mod_pos_bound. lia.
Qed.

Lemma testbit_one_bit (x i : Z) :
  0 <= x -> Z.testbit (Z.shiftl 1 x) i = (x =? i).
Proof.
  intros Hx. rewrite Z.shiftl_1_l. apply Z.pow2_bits_eqb. exact Hx.
Qed.

(** Setting bits sets exactly the bits asked for and clears none. *)
Lemma testbit_set_bits (locs : list Z) (b i : Z) :
  (forall x, x ∈ locs -> 0 <= x) ->
  Z.testbit
    (fold_left (fun acc loc => Z.lor acc (Z.shiftl 1 loc)) locs b) i = true
  <-> Z.testbit b i = true \/ i ∈ locs.
Proof.
  revert b. induction locs as [|x r IH]; intros b Hpos; cbn [fold_left].
  - set_solver.
  - rewrite IH by (intros y Hy; apply Hpos; set_solver).
    rewrite Z.lor_spec, orb_true_iff, testbit_one_bit
      by (apply Hpos; set_solver).
    rewrite Z.eqb_eq. set_solver.
Qed.

Lemma Test_true_iff (f : Bloom.BloomFilter) (key : list Z) :
  Bloom.Test f key = true <->
  forall x, x ∈ Bloom.locations f key -> Z.testbit (Bloom.b f) x = true.
Proof.
  unfold Bloom.Test. rewrite forallb_forall.
  split; intros Hall x Hx; apply Hall; apply list_elem_of_In; exact Hx.
Qed.

Lemma Test_Add_same (f : Bloom.BloomFilter) (key : list Z) :
  Bloom.valid f -> Bloom.Test (Bloom.Add f key) key = true.
Proof.
  intros Hv. apply Test_true_iff. intros x Hx. cbn [Bloom.Add Bloom.b].
  rewrite locations_Add in Hx.
  apply testbit_set_bits; [intros y; apply locations_nonneg, Hv|].
  right. exact Hx.
Qed.

Lemma Test_Add_mono (f : Bloom.BloomFilter) (key key' : list Z) :
  Bloom.valid f ->
  Bloom.Test f key' = true -> Bloom.Test (Bloom.Add f key) key' = true.
Proof.
  intros Hv Ht. apply Test_true_iff. intros x Hx. cbn [Bloom.Add Bloom.b].
  rewrite locations_Add in Hx.
  apply testbit_set_bits; [intros y; apply locations_nonneg, Hv|].
  left. revert x Hx. apply Test_true_iff, Ht.
Qed.

Lemma Test_New (m0 : Z) (k0 : nat) (key : list Z) :
  Bloom.Test (Bloom.New m0 k0) key = false.
Proof.
  unfold Bloom.Test, Bloom.locations, Bloom.New. cbn [Bloom.m Bloom.k Bloom.b].
  destruct (Nat.max 1 k0) as [|n] eqn:Hk; [lia|].
  cbn [seq map forallb]. rewrite Z.testbit_0_l. reflexivity.
Qed.

Import DoubleBufferBloom.

Lemma TestAndAdd_valid (key : list Z) (dbf : t) :
  valid dbf -> valid (TestAndAdd key dbf).2.
Proof.
  intros Hv. unfold TestAndAdd.
  destruct (Bloom.Test (current dbf) key); [exact Hv|].
  apply Add_valid, Hv.
Qed.

(** After [TestAndAdd key] the current generation answers "seen" for
    [key], and for whatever it answered "seen" before. *)
Lemma TestAndAdd_seen (key : list Z) (dbf : t) :
  valid dbf -> Bloom.Test (current (TestAndAdd key dbf).2) key = true.
Proof.
  intros Hv. unfold TestAndAdd.
  destruct (Bloom.Test (current dbf) key) eqn:Ht; [exact Ht|].
  apply Test_Add_same, Hv.
Qed.

Lemma TestAndAdd_keeps (key key' : list Z) (dbf : t) :
  valid dbf ->
  Bloom.Test (current dbf) key' = true ->
  Bloom.Test (current (TestAndAdd key dbf).2) key' = true.
Proof.
  intros Hv Hseen. unfold TestAndAdd.
  destruct (Bloom.Test (current dbf) key); [exact Hseen|].
  apply Test_Add_mono; assumption.
Qed.

Lemma TestAndAddAll_snoc (keys : list (list Z)) (key : list Z) (dbf : t) :
  TestAndAddAll (keys ++ [key]) dbf
  = (TestAndAdd key (TestAndAddAll keys dbf)).2.
Proof. unfold TestAndAddAll. rewrite foldl_snoc. reflexivity. Qed.

Lemma TestAndAddAll_valid (keys : list (list Z)) (dbf : t) :
  valid dbf -> valid (TestAndAddAll keys dbf).
Proof.
  intros Hv. induction keys as [|key keys IH] using rev_ind; [exact Hv|].
  rewrite TestAndAddAll_snoc. apply TestAndAdd_valid, IH.
Qed.

Lemma TestAndAddAll_keeps (keys : list (list Z)) (key' : list Z) (dbf : t) :
  valid dbf ->
  Bloom.Test (current dbf) key' = true ->
  Bloom.Test (current (TestAndAddAll keys dbf)) key' = true.
Proof.
  intros Hv Hseen. induction keys as [|key keys IH] using rev_ind;
    [exact Hseen|].
  rewrite TestAndAddAll_snoc.
  apply TestAndAdd_keeps; [apply TestAndAddAll_valid, Hv | exact IH].
Qed.

(** No false negatives: a key that went through [TestAndAdd] in this
    generation tests as seen from then on. *)
Lemma TestAndAddAll_no_false_negative
    (keys : list (list Z)) (key : list Z) (dbf : t) :
  valid dbf -> key ∈ keys ->
  Bloom.Test (current (TestAndAddAll keys dbf)) key = true.
Proof.
  intros Hv. induction keys as [|k0 keys IH] using rev_ind; intros Hin.
  - set_solver.
  - rewrite TestAndAddAll_snoc.
    apply elem_of_app in Hin as [Hin|Hin].
    + apply TestAndAdd_keeps; [apply TestAndAddAll_valid, Hv | exact (IH Hin)].
    + assert (k0 = key) as -> by set_solver.
      apply TestAndAdd_seen, TestAndAddAll_valid, Hv.
Qed.

(** C7.  On a generation that has just begun, [TestAndAdd key] answers
    [false] and inserts the key; from then on, whatever other keys go
    through [TestAndAdd] in the same generation, [TestAndAdd key]
    answers [true] and leaves the filter as it is; and no key that went
    through [TestAndAdd] in the generation is ever reported unseen. *)
Theorem TestAndAdd_first_false_then_true (dbf : t) (key : list Z) :
  current dbf = NewWithEstimates ->
  (TestAndAdd key dbf).1 = false /\
  Bloom.Test (current (TestAndAdd key dbf).2) key = true /\
  (forall keys : list (list Z),
     let d := TestAndAddAll keys (TestAndAdd key dbf).2 in
     TestAndAdd key d = (true, d)) /\
  (forall (keys : list (list Z)) (k0 : list Z),
     k0 ∈ keys ->
     let d := TestAndAddAll keys dbf in
     TestAndAdd k0 d = (true, d)).
Proof.
  intros Hfresh.
  assert (Hv : valid dbf)
    by (unfold valid; rewrite Hfresh; apply New_valid).
  split; [|split; [|split]].
  - unfold TestAndAdd. rewrite Hfresh.
    unfold NewWithEstimates. rewrite Test_New. reflexivity.
  - apply TestAndAdd_seen, Hv.
  - intros keys d. subst d. unfold TestAndAdd at 1.
    rewrite (TestAndAddAll_keeps keys key _ (TestAndAdd_valid key dbf Hv)
               (TestAndAdd_seen key dbf Hv)).
    reflexivity.
  - intros keys k0 Hin d. subst d. unfold TestAndAdd at 1.
    rewrite (TestAndAddAll_no_false_negative keys k0 dbf Hv Hin).
    reflexivity.
Qed.

End BloomFacts.

Section BloomRuns.
Existing Instance Sample.env.

Lemma TestAndAdd_first_false_then_true_witness :
  (DoubleBufferBloom.TestAndAdd [1; 2; 3]
     DoubleBufferBloom.NewDoubleBufferBloom).1 = false.
Proof.
  apply (TestAndAdd_first_false_then_true
           DoubleBufferBloom.NewDoubleBufferBloom [1; 2; 3]).
  reflexivity.
Defined.

End BloomRuns.

(** ** The behaviour analyzer *)

Section AnalyzerFacts.
Context `{Env}.
Import Analyzer.

(** Whatever [Visit] returns is what [Count] reads afterwards. *)
Lemma Visit_Count (ip : string) (c : Counter.t) :
  Counter.Count ip (Counter.Visit ip c).2 = (Counter.Visit ip c).1.
Proof.
  unfold Counter.Count, Counter.Visit.
  destruct (decide (ip ∈ Counter.index c)); cbn;
    rewrite lookup_insert_eq; reflexivity.
Qed.

(** On a well-formed counter [Visit] adds one to the client's count,
    within sixteen bits. *)
Lemma Visit_increments (ip : string) (c : Counter.t) :
  Counter.wf c ->
  (Counter.Visit ip c).1 = u16 (Counter.Count ip c + 1).
Proof.
  intros (_ & _ & Hdom). unfold Counter.Count.
  destruct (decide (ip ∈ Counter.index c)) as [Hin|Hnot].
  - apply (Visit_present ip c Hin).
  - destruct (Visit_absent ip c Hnot) as (-> & _).
    rewrite <- Hdom in Hnot. apply not_elem_of_dom in Hnot.
    rewrite Hnot. reflexivity.
Qed.

Lemma block_current (ip : string) (a : t) :
  current (blocklist (block ip a)) = {[ip]} ∪ current (blocklist a).
Proof.
  unfold block, Load. case_bool_decide as Hin; cbn; set_solver.
Qed.

Lemma block_new_snapshot (ip : string) (a : t) :
  ip ∉ current (blocklist a) ->
  blocklist (block ip a)
  = Store ({[ip]} ∪ current (blocklist a)) (blocklist a).
Proof.
  intros Hnot. unfold block, Load. case_bool_decide; [contradiction|].
  reflexivity.
Qed.

Lemma block_already (ip : string) (a : t) :
  ip ∈ current (blocklist a) -> block ip a = a.
Proof.
  intros Hin. unfold block, Load. case_bool_decide; [reflexivity|contradiction].
Qed.

(** C3.  [analyze] drops an observation whose dedup key the filter reports
    as seen, leaving the whole analyzer, counter and blocklist included,
    as it was.  Otherwise the client's count goes up by one, and when the
    new count is at least [PageThreshold] the blocklist becomes the prior
    set plus the client: a new snapshot is stored over the prior one,
    which stays as it was (no snapshot is stored for a client the prior
    set already holds); below the threshold the blocklist is untouched. *)
Theorem analyze_dedup_count_promote (w : World) (req : Request) (a : t) :
  Counter.wf (counter a) ->
  let key := u64ToBytes (hashIPPath w (IP req) (Path req)) in
  let a' := analyze w req a in
  ((DoubleBufferBloom.TestAndAdd key (bloom a)).1 = true -> a' = a) /\
  ((DoubleBufferBloom.TestAndAdd key (bloom a)).1 = false ->
     counter a' = (Counter.Visit (IP req) (counter a)).2 /\
     Counter.Count (IP req) (counter a')
     = u16 (Counter.Count (IP req) (counter a) + 1) /\
     (PageThreshold (cfg a) <= Counter.Count (IP req) (counter a') ->
        current (blocklist a') = {[IP req]} ∪ current (blocklist a) /\
        Blocked (IP req) a' = true /\
        (IP req ∉ current (blocklist a) ->
           blocklist a'
           = Store ({[IP req]} ∪ current (blocklist a)) (blocklist a))) /\
     (Counter.Count (IP req) (counter a') < PageThreshold (cfg a) ->
        blocklist a' = blocklist a)).
Proof.
  intros Hwf key a'. subst a'. unfold analyze. fold key.
  destruct (DoubleBufferBloom.TestAndAdd key (bloom a)) as [seen bloom1].
  cbn [fst]. split; intros Hseen; subst seen; [reflexivity|].
  pose proof (Visit_Count (IP req) (counter a)) as Hcount.
  pose proof (Visit_increments (IP req) (counter a) Hwf) as Hinc.
  destruct (Counter.Visit (IP req) (counter a)) as [count counter1].
  cbn [fst snd] in *.
  destruct (count >=? PageThreshold (cfg a)) eqn:Hthr.
  - apply Z.geb_le in Hthr.
    assert (Hc : counter (block (IP req)
                {| cfg := cfg a; blocklist := blocklist a; queue := queue a;
                   bloom := bloom1; counter := counter1; stop := stop a;
                   running := running a |}) = counter1)
      by (unfold block; case_bool_decide; reflexivity).
    rewrite Hc, Hcount. split; [reflexivity|]. split; [exact Hinc|].
    split; [|lia]. intros _. rewrite block_current. cbn [blocklist].
    split; [reflexivity|]. split.
    + unfold Blocked, Load. rewrite block_current.
      apply bool_decide_eq_true. set_solver.
    + intros Hnot. rewrite block_new_snapshot by exact Hnot. reflexivity.
  - cbn [counter blocklist]. rewrite Hcount.
    split; [reflexivity|]. split; [exact Hinc|].
    assert (count < PageThreshold (cfg a)).
    { destruct (Z.geb_spec count (PageThreshold (cfg a))); [discriminate|lia]. }
    split; [lia|reflexivity].
Qed.

(** *** The counter of a running analyzer is well formed *)

Lemma Clear_wf (c : Counter.t) : Counter.wf (Counter.Clear c).
Proof. unfold Counter.wf. cbn. split; [constructor|]. split; set_solver. Qed.

Lemma block_counter (ip : string) (a : t) : counter (block ip a) = counter a.
Proof. unfold block. case_bool_decide; reflexivity. Qed.

Lemma analyze_counter_wf (w : World) (req : Request) (a : t) :
  Counter.wf (counter a) -> Counter.wf (counter (analyze w req a)).
Proof.
  intros Hwf. unfold analyze.
  destruct (DoubleBufferBloom.TestAndAdd _ _) as [[|] bloom1]; [exact Hwf|].
  pose proof (Visit_wf (IP req) (counter a) Hwf) as Hwf'.
  destruct (Counter.Visit (IP req) (counter a)) as [count counter1].
  destruct (count >=? _); [rewrite block_counter|]; exact Hwf'.
Qed.

Lemma step_counter_wf (e : event) (a : t) :
  Counter.wf (counter a) -> Counter.wf (counter (step e a)).
Proof.
  intros Hwf. destruct e as [w ip path| |w| |]; cbn [step].
  - unfold Record_. destruct (_ <? _); exact Hwf.
  - unfold Close. destruct (stop a); exact Hwf.
  - destruct (running a); [|exact Hwf].
    destruct (queue a) as [|req rest]; [exact Hwf|].
    apply analyze_counter_wf. exact Hwf.
  - destruct (running a); [apply Clear_wf|exact Hwf].
  - destruct (running a && stop a); exact Hwf.
Qed.

Lemma run_step (es : list event) (e : event) (a : t) :
  run (es ++ [e]) a = step e (run es a).
Proof. unfold run. rewrite foldl_snoc. reflexivity. Qed.

(** Every state a new analyzer can reach has a well-formed counter. *)
Lemma reachable_counter_wf (cfg0 : Config) (es : list event) :
  Counter.wf (counter (run es (New cfg0))).
Proof.
  induction es as [|e es IH] using rev_ind.
  - exact (NewCounter_wf 100000).
  - rewrite run_step. apply step_counter_wf, IH.
Qed.

(** *** The blocklist only grows *)

Lemma block_mono (ip x : string) (a : t) :
  x ∈ current (blocklist a) -> x ∈ current (blocklist (block ip a)).
Proof. rewrite block_current. set_solver. Qed.

Lemma analyze_mono (w : World) (req : Request) (x : string) (a : t) :
  x ∈ current (blocklist a) -> x ∈ current (blocklist (analyze w req a)).
Proof.
  intros Hin. unfold analyze.
  destruct (DoubleBufferBloom.TestAndAdd _ _) as [[|] bloom1]; [exact Hin|].
  destruct (Counter.Visit _ _) as [count counter1].
  destruct (count >=? _); [apply block_mono|]; exact Hin.
Qed.

Lemma Record_blocklist (w : World) (ip path : string) (a : t) :
  blocklist (Record_ w ip path a) = blocklist a.
Proof. unfold Record_. destruct (_ <? _); reflexivity. Qed.

Lemma step_mono (e : event) (x : string) (a : t) :
  x ∈ current (blocklist a) -> x ∈ current (blocklist (step e a)).
Proof.
  intros Hin. destruct e as [w ip path| |w| |]; cbn [step].
  - rewrite Record_blocklist. exact Hin.
  - unfold Close. destruct (stop a); exact Hin.
  - destruct (running a); [|exact Hin].
    destruct (queue a) as [|req rest]; [exact Hin|].
    apply analyze_mono. exact Hin.
  - destruct (running a); exact Hin.
  - destruct (running a && stop a); exact Hin.
Qed.

Lemma run_mono (es : list event) (x : string) (a : t) :
  x ∈ current (blocklist a) -> x ∈ current (blocklist (run es a)).
Proof.
  intros Hin. induction es as [|e es IH] using rev_ind; [exact Hin|].
  rewrite run_step. apply step_mono, IH.
Qed.

(** C4.  Once [Blocked ip] answers [true] it answers [true] after every
    further run of the analyzer, whatever calls to [Record] and [Close]
    and whatever worker steps (observations analyzed, rotations, the
    worker's exit) the run is made of. *)
Theorem Blocked_monotone (es : list event) (ip : string) (a : t) :
  Blocked ip a = true -> Blocked ip (run es a) = true.
Proof.
  unfold Blocked, Load. rewrite !bool_decide_eq_true. apply run_mono.
Qed.

(** C6.  [Record] is a function of the analyzer's state: it returns, and
    returns nothing but the new state.  With room in the queue the
    observation goes to its end; with the queue full the analyzer is left
    exactly as it was.  Either way the blocklist, the filter and the
    counter are untouched and the queue stays within its capacity. *)
Theorem Record_enqueues_or_drops (w : World) (ip path : string) (a : t) :
  1 <= QueueCap (cfg a) ->
  let a' := Record_ w ip path a in
  (Z.of_nat (length (queue a)) < QueueCap (cfg a) ->
     queue a' = queue a ++ [{| IP := ip; Path := hashStr w path |}]) /\
  (QueueCap (cfg a) <= Z.of_nat (length (queue a)) -> a' = a) /\
  blocklist a' = blocklist a /\ bloom a' = bloom a /\
  counter a' = counter a /\ cfg a' = cfg a /\
  stop a' = stop a /\ running a' = running a /\
  (Z.of_nat (length (queue a)) <= QueueCap (cfg a) ->
     Z.of_nat (length (queue a')) <= QueueCap (cfg a)).
Proof.
  intros Hcap a'. subst a'. unfold Record_.
  destruct (Z.ltb_spec (Z.of_nat (length (queue a))) (QueueCap (cfg a)))
    as [Hroom|Hfull]; cbn.
  - repeat split; try reflexivity; try lia.
    intros _. rewrite length_app. cbn. lia.
  - repeat split; try reflexivity; try lia.
Qed.

End AnalyzerFacts.

Section AnalyzerRuns.
Existing Instance Sample.env.
Import Analyzer.

Lemma analyze_dedup_count_promote_witness :
  Blocked "1.2.3.4"
    (analyze Sample.world Sample.sampleRequest (New Sample.strictConfig))
  = true.
Proof.
  destruct (analyze_dedup_count_promote Sample.world Sample.sampleRequest
              (New Sample.strictConfig) (NewCounter_wf 100000)) as (_ & Hnew).
  destruct Hnew as (_ & _ & Hpromote & _); [vm_compute; reflexivity|].
  apply Hpromote. vm_compute. discriminate.
Defined.

Lemma Blocked_monotone_witness :
  Blocked "1.2.3.4"
    (run [CallRecord Sample.world "5.6.7.8" "/a"; WorkerRecv Sample.world;
          WorkerTick; CallClose; WorkerStop]
       (block "1.2.3.4" (New Sample.strictConfig)))
  = true.
Proof.
  apply Blocked_monotone. vm_compute. reflexivity.
Defined.

Lemma Record_enqueues_or_drops_witness :
  let a2 := Record_ Sample.world "1.2.3.4" "/b"
              (Record_ Sample.world "1.2.3.4" "/a" (New Sample.strictConfig)) in
  Record_ Sample.world "1.2.3.4" "/c" a2 = a2.
Proof.
  intros a2.
  apply (Record_enqueues_or_drops Sample.world "1.2.3.4" "/c" a2);
    vm_compute; discriminate.
Defined.

(** The scenario of the specification, on a clock and seeds that do not
    move: with [PageThreshold = 3], three distinct pages of one client put
    it on the blocklist. *)
Example scenario_distinct_pages_blocked :
  Blocked "1.2.3.4"
    (Sample.recordAndAnalyze Sample.world "1.2.3.4" ["/a"; "/b"; "/c"; "/d"]
       (New Sample.scenarioConfig)) = true.
Proof. vm_compute. reflexivity. Qed.

(** The same page recorded ten times under one and the same seed counts
    once. *)
Example scenario_same_page_same_seed :
  Blocked "1.2.3.4"
    (Sample.recordAndAnalyze Sample.world "1.2.3.4"
       ["/a"; "/a"; "/a"; "/a"; "/a"; "/a"; "/a"; "/a"; "/a"; "/a"]
       (New Sample.scenarioConfig)) = false.
Proof. vm_compute. reflexivity. Qed.

(** [hashStr] and [hashIPPath] each start from a zero [maphash.Hash],
    which draws a seed of its own: two recordings of one page need not
    hash alike, and then the filter takes them for two pages. *)
Example same_page_two_seeds_counted_twice :
  let w1 := {| now := 0; seed := 1 |} in
  let w2 := {| now := 0; seed := 2 |} in
  let a := run [CallRecord w1 "1.2.3.4" "/a"; CallRecord w2 "1.2.3.4" "/a";
                WorkerRecv w1; WorkerRecv w1] (New Sample.scenarioConfig) in
  Counter.Count "1.2.3.4" (counter a) = 2.
Proof. vm_compute. reflexivity. Qed.

End AnalyzerRuns.

(** ** The decision orchestrator *)

Section LimiterFacts.
Context `{Env}.
Import Limiter.


Lemma getLimiter_creates (ip : string) (l : t) :
  is_Some (blocked (getLimiter ip l).2 !! ip).
Proof.
  unfold getLimiter. destruct (blocked l !! ip) as [val|] eqn:Hl; cbn.
  - rewrite Hl. eauto.
  - rewrite lookup_insert_eq. eauto.
Qed.

Lemma allowBlocked_creates (w : World) (ip : string) (l : t) :
  is_Some (blocked (allowBlocked w ip l).2 !! ip).
Proof.
  unfold allowBlocked. destruct (getLimiter ip l) as [limiter l1].
  destruct (bucket_Allow (now w) limiter) as [ok limiter1]. cbn.
  rewrite lookup_insert_eq. eauto.
Qed.

(** C1.  For a client the validator calls a bot with status [Failed] or
    [Unknown], [Allow] denies with reason [ReasonFakeBot] and hands the
    limiter back as it received it: no bucket is made for the client, on
    the first call to a new limiter as on any later one.  The text of
    [Allow] that returns a bare [bool] denies in the same way. *)
Theorem Allow_fake_bot_denied (w : World) (ua ip : string) (l : t) :
  IsBot (kb l ua ip) = true ->
  Status (kb l ua ip) = StatusFailed \/ Status (kb l ua ip) = StatusUnknown ->
  LimiterRev3.Allow w ua ip l = ((false, LimiterRev3.ReasonFakeBot), l) /\
  blocked (LimiterRev3.Allow w ua ip l).2 !! ip = blocked l !! ip /\
  LimiterRev2.Allow w ua ip l = (false, l).
Proof.
  intros Hbot Hst. unfold LimiterRev3.Allow, LimiterRev2.Allow.
  rewrite Hbot. destruct Hst as [-> | ->]; repeat split; reflexivity.
Qed.

(** The oldest text of [Allow] differs: there every bot that is not
    verified goes to the token bucket, which makes a pool entry for it. *)
Remark Rev1_Allow_unverified_bot_uses_bucket
    (w : World) (ua ip : string) (l : t) :
  IsBot (kb l ua ip) = true ->
  Status (kb l ua ip) <> StatusVerified ->
  LimiterRev1.Allow w ua ip l = allowBlocked w ip l /\
  is_Some (blocked (LimiterRev1.Allow w ua ip l).2 !! ip).
Proof.
  intros Hbot Hst.
  assert (Heq : LimiterRev1.Allow w ua ip l = allowBlocked w ip l).
  { unfold LimiterRev1.Allow. rewrite Hbot.
    destruct (Status (kb l ua ip)); [contradiction| | |]; reflexivity. }
  split; [exact Heq|]. rewrite Heq. apply allowBlocked_creates.
Qed.

(** C5.  For a client the validator calls a bot with status [Pending],
    [Allow] answers [true] with no reason and [Wait] answers [nil]; the
    limiter comes back as it was, and the answers are the same whatever
    the blocklist and the limiter pool hold. *)
Theorem Pending_bot_allowed (w : World) (ctx : Context) (ua ip : string)
    (l : t) :
  IsBot (kb l ua ip) = true ->
  Status (kb l ua ip) = StatusPending ->
  LimiterRev3.Allow w ua ip l = ((true, LimiterRev3.ReasonNone), l) /\
  LimiterRev3.Wait w ctx ua ip l = ((None, LimiterRev3.ReasonNone), l) /\
  LimiterRev2.Allow w ua ip l = (true, l) /\
  LimiterRev2.Wait w ctx ua ip l = (None, l) /\
  (forall (pool : gmap string bucket) (a : Analyzer.t),
     let l' := set_analyzer a (set_blocked pool l) in
     (LimiterRev3.Allow w ua ip l').1 = (LimiterRev3.Allow w ua ip l).1 /\
     (LimiterRev3.Wait w ctx ua ip l').1 = (LimiterRev3.Wait w ctx ua ip l).1).
Proof.
  intros Hbot Hst.
  unfold LimiterRev3.Allow, LimiterRev3.Wait, LimiterRev2.Allow,
    LimiterRev2.Wait.
  cbn [kb set_analyzer set_blocked]. rewrite Hbot, Hst.
  repeat split; reflexivity.
Qed.

(** The oldest text treats a pending bot like any unverified one. *)
Remark Rev1_Wait_unverified_bot_uses_bucket
    (w : World) (ctx : Context) (ua ip : string) (l : t) :
  IsBot (kb l ua ip) = true ->
  Status (kb l ua ip) <> StatusVerified ->
  LimiterRev1.Wait w ctx ua ip l = waitBlocked w ctx ip l.
Proof.
  intros Hbot Hst. unfold LimiterRev1.Wait. rewrite Hbot.
  destruct (Status (kb l ua ip)); [contradiction| | |]; reflexivity.
Qed.

(** On a blocked client the newest [Wait] returns the bucket's error, or
    [ErrLimit] in place of the bucket's [nil]. *)
Lemma Rev3_Wait_blocked_result (w : World) (ctx : Context) (ua ip : string)
    (l : t) :
  IsBot (kb l ua ip) = false ->
  Analyzer.Blocked ip (analyzer l) = true ->
  LimiterRev3.Wait w ctx ua ip l
  = ((Some (default ErrLimit (waitBlocked w ctx ip l).1),
      LimiterRev3.ReasonRateLimited),
     (waitBlocked w ctx ip l).2).
Proof.
  intros Hbot Hblk. unfold LimiterRev3.Wait. rewrite Hbot, Hblk.
  destruct (waitBlocked w ctx ip l) as [[e|] l1]; reflexivity.
Qed.


(** The two older texts hand the bucket's answer on as it is, [nil]
    included. *)
Remark Rev2_Wait_blocked_passes_result
    (w : World) (ctx : Context) (ua ip : string) (l : t) :
  IsBot (kb l ua ip) = false ->
  Analyzer.Blocked ip (analyzer l) = true ->
  LimiterRev2.Wait w ctx ua ip l = waitBlocked w ctx ip l /\
  LimiterRev1.Wait w ctx ua ip l = waitBlocked w ctx ip l.
Proof.
  intros Hbot Hblk. unfold LimiterRev2.Wait, LimiterRev1.Wait.
  rewrite Hbot, Hblk. split; reflexivity.
Qed.

(** C10.  [ErrLimit] is [context.DeadlineExceeded] itself.  [Wait] on a
    bot with status [Failed] or [Unknown] returns that value whatever the
    context, a live one included, and comparing it with
    [context.DeadlineExceeded] finds them equal.  For a blocked client the
    newest [Wait] answers a deadline that expired in the bucket and a
    [nil] from the bucket with one and the same result. *)
Theorem ErrLimit_is_DeadlineExceeded :
  ErrLimit = DeadlineExceeded /\
  bool_decide (ErrLimit = DeadlineExceeded) = true /\
  (forall (w : World) (ctx : Context) (ua ip : string) (l : t),
     IsBot (kb l ua ip) = true ->
     Status (kb l ua ip) = StatusFailed \/
     Status (kb l ua ip) = StatusUnknown ->
     (LimiterRev2.Wait w ctx ua ip l).1 = Some DeadlineExceeded /\
     (LimiterRev3.Wait w ctx ua ip l).1.1 = Some DeadlineExceeded /\
     (LimiterRev2.Wait w Background ua ip l).1 = Some DeadlineExceeded) /\
  (forall (w : World) (ctx : Context) (ua ip : string) (l : t),
     IsBot (kb l ua ip) = false ->
     Analyzer.Blocked ip (analyzer l) = true ->
     (waitBlocked w ctx ip l).1 = Some DeadlineExceeded \/
     (waitBlocked w ctx ip l).1 = None ->
     (LimiterRev3.Wait w ctx ua ip l).1
     = (Some DeadlineExceeded, LimiterRev3.ReasonRateLimited)).
Proof.
  split; [reflexivity|]. split; [reflexivity|]. split.
  - intros w ctx ua ip l Hbot Hst.
    unfold LimiterRev2.Wait, LimiterRev3.Wait. rewrite Hbot.
    destruct Hst as [-> | ->]; repeat split; reflexivity.
  - intros w ctx ua ip l Hbot Hblk Hout.
    rewrite (Rev3_Wait_blocked_result w ctx ua ip l Hbot Hblk). cbn [fst].
    destruct Hout as [-> | ->]; reflexivity.
Qed.

End LimiterFacts.

Section LimiterRuns.
Existing Instance Sample.env.
Import Limiter.

Lemma Allow_fake_bot_denied_witness :
  LimiterRev3.Allow Sample.world "Googlebot/2.1" "203.0.113.9" Sample.limiter
  = ((false, LimiterRev3.ReasonFakeBot), Sample.limiter).
Proof.
  apply (Allow_fake_bot_denied Sample.world "Googlebot/2.1" "203.0.113.9"
           Sample.limiter); [reflexivity | left; reflexivity].
Defined.

Lemma Pending_bot_allowed_witness :
  LimiterRev3.Allow Sample.world "Googlebot/2.1" "10.0.0.1" Sample.limiter
  = ((true, LimiterRev3.ReasonNone), Sample.limiter).
Proof.
  apply (Pending_bot_allowed Sample.world Background "Googlebot/2.1"
           "10.0.0.1" Sample.limiter); reflexivity.
Defined.

Lemma ErrLimit_is_DeadlineExceeded_witness :
  (LimiterRev2.Wait Sample.world Background "Googlebot/2.1" "203.0.113.9"
     Sample.limiter).1 = Some DeadlineExceeded.
Proof.
  destruct ErrLimit_is_DeadlineExceeded as (_ & _ & Hwait & _).
  apply (Hwait Sample.world Background "Googlebot/2.1" "203.0.113.9"
           Sample.limiter); [reflexivity | left; reflexivity].
Defined.


(** When the context is already cancelled the bucket reports it, and
    [Wait] hands the context's error on. *)
Example Wait_blocked_context_canceled :
  (LimiterRev3.Wait Sample.world
     {| ctx_err := Some Canceled; ctx_deadline := None |}
     "Mozilla/5.0" "198.51.100.7" Sample.blockedLimiter).1
  = (Some Canceled, LimiterRev3.ReasonRateLimited).
Proof. vm_compute. reflexivity. Qed.

(** The same call on the second text of [Wait] returns [nil]. *)
Example Rev2_Wait_blocked_returns_nil :
  (LimiterRev2.Wait Sample.world Background "Mozilla/5.0" "198.51.100.7"
     Sample.blockedLimiter).1 = None.
Proof. vm_compute. reflexivity. Qed.

(** On the oldest text the first call for a forged bot is let through,
    and the client gets a bucket. *)
Example Rev1_Allow_fake_bot_first_call :
  (LimiterRev1.Allow Sample.world "Googlebot/2.1" "203.0.113.9"
     Sample.limiter).1 = true /\
  is_Some (blocked (LimiterRev1.Allow Sample.world "Googlebot/2.1"
                      "203.0.113.9" Sample.limiter).2 !! "203.0.113.9").
Proof. split; [vm_compute; reflexivity|]. vm_compute. eauto. Qed.

End LimiterRuns.

(** * Further properties of the code *)

(** ** The visit counter as a bounded, recency-ordered map *)

Section CounterMore.
Import Counter CounterOps.

Lemma runOps_snoc (os : list op) (o : op) (c : t) :
  runOps (os ++ [o]) c = apply o (runOps os c).
Proof. unfold runOps. rewrite foldl_snoc. reflexivity. Qed.

Lemma Clear_wf_size (c : t) :
  wf (Clear c) /\ size (data (Clear c)) = 0%nat.
Proof.
  split; [|cbn; apply map_size_empty].
  unfold wf. cbn. split; [constructor|]. split; set_solver.
Qed.

(** X1.  Whatever sequence of [Visit], [Count] and [Clear] calls a counter
    of capacity [n >= 1] goes through, its map, its index and its recency
    list hold the same clients, each once, and never more than [n] of
    them; the capacity itself never changes. *)
Theorem Counter_ops_keep_invariant (n : Z) (os : list op) :
  1 <= n ->
  let c := runOps os (setMaxSize n NewCounter) in
  wf c /\
  maxSize c = n /\
  Z.of_nat (size (data c)) <= n /\
  size (data c) = length (lru c) /\
  size (index c) = length (lru c).
Proof.
  intros Hn c. subst c.
  assert (Hinv : wf (runOps os (setMaxSize n NewCounter)) /\
                 maxSize (runOps os (setMaxSize n NewCounter)) = n /\
                 Z.of_nat (size (data (runOps os (setMaxSize n NewCounter))))
                 <= n).
  { induction os as [|o os IH] using rev_ind.
    - cbn. split; [apply NewCounter_wf|]. split; [reflexivity|].
      rewrite map_size_empty. lia.
    - destruct IH as (Hwf & Hmax & Hsz). rewrite runOps_snoc.
      destruct o as [ip|ip|]; cbn [apply].
      + split; [apply Visit_wf, Hwf|]. split.
        * rewrite Visit_maxSize. exact Hmax.
        * pose proof (Visit_size ip _ Hwf) as Hvs. rewrite Hmax in Hvs.
          apply Hvs; assumption.
      + auto.
      + destruct (Clear_wf_size (runOps os (setMaxSize n NewCounter)))
          as (Hwf' & Hsz').
        split; [exact Hwf'|]. split; [exact Hmax|]. rewrite Hsz'. lia. }
  destruct Hinv as (Hwf & Hmax & Hsz).
  split; [exact Hwf|]. split; [exact Hmax|]. split; [exact Hsz|].
  split; [apply wf_size, Hwf|].
  destruct Hwf as (Hnd & Hidx & _). rewrite Hidx.
  apply size_list_to_set, Hnd.
Qed.

Lemma Counter_ops_keep_invariant_witness :
  Z.of_nat
    (size (data (runOps [OpVisit "A"; OpVisit "B"; OpVisit "A"; OpVisit "C";
                         OpCount "B"; OpVisit "D"; OpClear; OpVisit "E"]
                   (setMaxSize 2 NewCounter)))) <= 2.
Proof.
  apply (Counter_ops_keep_invariant 2
           [OpVisit "A"; OpVisit "B"; OpVisit "A"; OpVisit "C";
            OpCount "B"; OpVisit "D"; OpClear; OpVisit "E"]).
  lia.
Defined.

(** X2.  A [Visit] of one client leaves the count of every other client
    that is still held as it was; and a client can only drop out if it was
    at the back of the recency list when a client without an entry arrived
    at a full counter. *)
Theorem Visit_leaves_other_counts (ip ip' : string) (c : t) :
  ip' <> ip ->
  (ip' ∈ index (Visit ip c).2 ->
     Count ip' (Visit ip c).2 = Count ip' c) /\
  (ip' ∈ index c -> ip' ∉ index (Visit ip c).2 ->
     GoList.Back (lru c) = Some ip' /\
     (ip ∉ index c) /\
     maxSize c <= Z.of_nat (size (data c))).
Proof.
  intros Hne. unfold Count, Visit.
  destruct (decide (ip ∈ index c)) as [Hin|Hnot]; cbn [snd data index].
  - split.
    + intros _. rewrite lookup_insert_ne by congruence. reflexivity.
    + intros H1 H2. contradiction.
  - unfold evict.
    destruct (Z.of_nat (size (data c)) >=? maxSize c) eqn:Hfull.
    + apply Z.geb_le in Hfull.
      destruct (GoList.Back (lru c)) as [tailIP|] eqn:Hback;
        cbn [data index].
      * split.
        -- intros Hin. rewrite lookup_insert_ne by congruence.
           rewrite lookup_delete_ne; [reflexivity|]. set_solver.
        -- intros H1 H2. split; [|split; [exact Hnot|exact Hfull]].
           f_equal. destruct (decide (tailIP = ip')) as [Heq|Hd];
             [exact Heq|]. exfalso. apply H2. set_solver.
      * split.
        -- intros _. rewrite lookup_insert_ne by congruence. reflexivity.
        -- intros H1 H2. exfalso. apply H2. set_solver.
    + split.
      * intros _. rewrite lookup_insert_ne by congruence. reflexivity.
      * intros H1 H2. exfalso. apply H2. set_solver.
Qed.

Lemma Visit_leaves_other_counts_witness :
  Count "A" (Visit "B" (Visit "A" (Visit "A" NewCounter).2).2).2
  = Count "A" (Visit "A" (Visit "A" NewCounter).2).2.
Proof.
  apply (Visit_leaves_other_counts "B" "A"
           (Visit "A" (Visit "A" NewCounter).2).2); [discriminate|].
  vm_compute. set_solver.
Defined.

Lemma last_cons_nonempty (x : string) (l : list string) (y : string) :
  last l = Some y -> last (x :: l) = Some y.
Proof. intros Hl. rewrite last_cons, Hl. reflexivity. Qed.

(** X3.  Visiting a client again moves it to the front: when a client
    without an entry then arrives at a full counter, the revisited client
    stays, with its count raised by one, and the one evicted is the least
    recently used among the others. *)
Theorem Visit_revisit_protects (x z y : string) (c : t) :
  wf c ->
  x ∈ index c ->
  z ∉ index c ->
  maxSize c <= Z.of_nat (size (data c)) ->
  last (GoList.unlink x (lru c)) = Some y ->
  let c2 := (Visit z (Visit x c).2).2 in
  (x ∈ index c2) /\
  Count x c2 = u16 (Count x c + 1) /\
  (y ∉ index c2) /\
  Count y c2 = 0.
Proof.
  intros Hwf Hx Hz Hfull Hy c2. subst c2.
  pose proof Hwf as (Hnd & Hidx & Hdom).
  assert (Hxl : x ∈ lru c) by (rewrite Hidx in Hx; set_solver).
  assert (Hyu : y ∈ GoList.unlink x (lru c)).
  { apply last_Some in Hy as [l' ->]. set_solver. }
  apply (elem_of_unlink x y _ Hnd) in Hyu as [Hyl Hyx].
  assert (Hyi : y ∈ index c) by (rewrite Hidx; set_solver).
  assert (Hyz : y <> z) by (intros ->; contradiction).
  assert (Hxz : x <> z) by (intros ->; contradiction).
  pose proof (Visit_wf x c Hwf) as Hwf1.
  destruct (Visit_present x c Hx) as (_ & Hd1 & Hi1).
  assert (Hl1 : lru (Visit x c).2 = x :: GoList.unlink x (lru c)).
  { unfold Visit. destruct (decide (x ∈ index c)); [|contradiction].
    cbn. unfold GoList.MoveToFront.
    destruct (decide (x ∈ lru c)); [reflexivity|contradiction]. }
  assert (Hm1 : maxSize (Visit x c).2 = maxSize c) by apply Visit_maxSize.
  assert (Hs1 : size (data (Visit x c).2) = size (data c)).
  { rewrite (wf_size _ Hwf1), (wf_size _ Hwf), Hl1. cbn [length].
    assert (Hlen : forall l : list string,
               x ∈ l -> S (length (GoList.unlink x l)) = length l).
    { induction l as [|a r IH]; intros Hin; [set_solver|].
      cbn [GoList.unlink]. destruct (decide (a = x)); [reflexivity|].
      cbn [length]. f_equal. apply IH. set_solver. }
    apply Hlen, Hxl. }
  assert (Hz1 : z ∉ index (Visit x c).2) by (rewrite Hi1; exact Hz).
  unfold Count.
  unfold Visit at 1 3 5 7.
  destruct (decide (z ∈ index (Visit x c).2)); [contradiction|].
  cbn [snd data index]. unfold evict.
  rewrite Hs1, Hm1.
  destruct (Z.of_nat (size (data c)) >=? maxSize c) eqn:Hge;
    [|exfalso; destruct (Z.geb_spec (Z.of_nat (size (data c))) (maxSize c));
      [discriminate|lia]].
  unfold GoList.Back. rewrite Hl1, (last_cons_nonempty x _ y Hy).
  cbn [data index]. rewrite Hi1.
  split; [set_solver|]. split.
  - rewrite lookup_insert_ne by congruence.
    rewrite lookup_delete_ne by congruence.
    rewrite Hd1. reflexivity.
  - split; [set_solver|].
    rewrite lookup_insert_ne by congruence.
    rewrite lookup_delete_eq. reflexivity.
Qed.

Lemma Visit_revisit_protects_witness :
  let c := VisitAll ["A"; "B"; "C"] (setMaxSize 3 NewCounter) in
  ("A" ∈ index (Visit "D" (Visit "A" c).2).2) /\
  Count "A" (Visit "D" (Visit "A" c).2).2 = u16 (Count "A" c + 1) /\
  ("B" ∉ index (Visit "D" (Visit "A" c).2).2) /\
  Count "B" (Visit "D" (Visit "A" c).2).2 = 0.
Proof.
  intros c.
  apply (Visit_revisit_protects "A" "D" "B" c).
  - apply (VisitAll_bounded ["A"; "B"; "C"] (setMaxSize 3 NewCounter));
      [apply NewCounter_wf | cbn; lia | cbn; rewrite map_size_empty; lia].
  - vm_compute. set_solver.
  - vm_compute. set_solver.
  - vm_compute. discriminate.
  - vm_compute. reflexivity.
Defined.

(** X4.  [Clear] forgets every client: all counts read 0, the counter is
    empty, its capacity is kept, and the next [Visit] of any client
    returns 1 and makes it the only client held. *)
Theorem Clear_resets_counts (c : t) (ip ip' : string) :
  Count ip (Clear c) = 0 /\
  size (data (Clear c)) = 0%nat /\
  maxSize (Clear c) = maxSize c /\
  (Visit ip (Clear c)).1 = 1 /\
  data (Visit ip (Clear c)).2 = {[ip := 1]} /\
  lru (Visit ip (Clear c)).2 = [ip] /\
  (ip' <> ip -> Count ip' (Visit ip (Clear c)).2 = 0).
Proof.
  assert (Hv : Visit ip (Clear c)
               = (1, {| maxSize := maxSize c; data := {[ip := 1]};
                        lru := [ip]; index := {[ip]} ∪ ∅ |})).
  { unfold Visit, Clear. cbn [index].
    destruct (decide (ip ∈ (∅ : gset string))) as [Hin|_]; [set_solver|].
    unfold evict. cbn [data maxSize lru GoList.Back last].
    destruct (_ >=? _); reflexivity. }
  split; [unfold Count, Clear; cbn; rewrite lookup_empty; reflexivity|].
  split; [cbn; apply map_size_empty|]. split; [reflexivity|].
  rewrite Hv. unfold Count. cbn [fst snd data lru].
  split; [reflexivity|]. split; [reflexivity|]. split; [reflexivity|].
  intros Hne. rewrite lookup_singleton_ne by congruence. reflexivity.
Qed.

End CounterMore.

(** ** Generations of the dedup filter *)

Section RotateMore.
Context `{Env}.
Import DoubleBufferBloom.

(** X5.  [Rotate] starts an empty generation and keeps the one it replaces
    as [previous], which [TestAndAdd] neither reads nor writes: after a
    rotation every key is reported unseen, one inserted just before the
    rotation included, and a second rotation drops the older generation
    for good. *)
Theorem Rotate_forgets (dbf : t) (key : list Z) :
  previous (Rotate dbf) = current dbf /\
  (TestAndAdd key (Rotate dbf)).1 = false /\
  (TestAndAdd key (Rotate (TestAndAdd key dbf).2)).1 = false /\
  previous (TestAndAdd key (Rotate dbf)).2 = current dbf /\
  previous (Rotate (Rotate dbf)) = NewWithEstimates /\
  valid (Rotate dbf).
Proof.
  assert (Hfresh : forall d : t, (TestAndAdd key (Rotate d)).1 = false).
  { intros d. unfold TestAndAdd, Rotate. cbn [current].
    unfold NewWithEstimates. rewrite Test_New. reflexivity. }
  split; [reflexivity|]. split; [apply Hfresh|]. split; [apply Hfresh|].
  split.
  - unfold TestAndAdd. destruct (Bloom.Test _ _); reflexivity.
  - split; [reflexivity|]. unfold valid, Rotate. cbn. apply New_valid.
Qed.

End RotateMore.

(** ** The bytes of a dedup key *)

Section BytesMore.

Lemma leValue_leBytes (n : nat) (v : Z) :
  leValue (leBytes n v) = v mod 256 ^ Z.of_nat n.
Proof.
  revert v. induction n as [|m IH]; intros v.
  - cbn. rewrite Z.mod_1_r. reflexivity.
  - cbn [leBytes leValue]. rewrite IH. unfold byte.
    replace (256 ^ Z.of_nat (S m)) with (256 * 256 ^ Z.of_nat m)
      by (rewrite Nat2Z.inj_succ, Z.pow_succ_r by lia; reflexivity).
    rewrite Z.rem_mul_r by lia. reflexivity.
Qed.

Lemma u64ToBytes_leBytes (v : Z) : Analyzer.u64ToBytes v = leBytes 8 v.
Proof.
  unfold Analyzer.u64ToBytes. cbn [leBytes].
  assert (Hs : forall (a n : Z), 0 <= n ->
             Z.shiftr a (n + 8) = Z.shiftr a n / 256).
  { intros a n Hn. rewrite <- Z.shiftr_shiftr by lia.
    apply Z.shiftr_div_pow2. lia. }
  assert (H8 : Z.shiftr v 8 = v / 256)
    by (apply (Z.shiftr_div_pow2 v 8); lia).
  assert (H16 : Z.shiftr v 16 = v / 256 / 256)
    by (rewrite <- H8; apply (Hs v 8); lia).
  assert (H24 : Z.shiftr v 24 = v / 256 / 256 / 256)
    by (rewrite <- H16; apply (Hs v 16); lia).
  assert (H32 : Z.shiftr v 32 = v / 256 / 256 / 256 / 256)
    by (rewrite <- H24; apply (Hs v 24); lia).
  assert (H40 : Z.shiftr v 40 = v / 256 / 256 / 256 / 256 / 256)
    by (rewrite <- H32; apply (Hs v 32); lia).
  assert (H48 : Z.shiftr v 48 = v / 256 / 256 / 256 / 256 / 256 / 256)
    by (rewrite <- H40; apply (Hs v 40); lia).
  assert (H56 : Z.shiftr v 56
                = v / 256 / 256 / 256 / 256 / 256 / 256 / 256)
    by (rewrite <- H48; apply (Hs v 48); lia).
  rewrite H8, H16, H24, H32, H40, H48, H56. reflexivity.
Qed.

Lemma leBytes_range (n : nat) (v b : Z) :
  b ∈ leBytes n v -> 0 <= b < 256.
Proof.
  revert v. induction n as [|m IH]; intros v Hin; cbn [leBytes] in Hin.
  - set_solver.
  - apply elem_of_cons in Hin as [-> | Hin]; [|exact (IH _ Hin)].
    unfold byte. apply Z.mod_pos_bound. lia.
Qed.

(** X6.  [u64ToBytes] lists the eight bytes of its argument, lowest first:
    eight values below 256 from which the argument is read back modulo
    2^64, so two different 64-bit keys never give the same bytes. *)
Theorem u64ToBytes_roundtrip (v : Z) :
  length (Analyzer.u64ToBytes v) = 8%nat /\
  (forall b : Z, b ∈ Analyzer.u64ToBytes v -> 0 <= b < 256) /\
  leValue (Analyzer.u64ToBytes v) = u64 v /\
  (forall w : Z,
     0 <= v < 2 ^ 64 -> 0 <= w < 2 ^ 64 ->
     Analyzer.u64ToBytes v = Analyzer.u64ToBytes w -> v = w).
Proof.
  split; [reflexivity|]. split.
  - intros b. rewrite u64ToBytes_leBytes. apply leBytes_range.
  - assert (Hval : forall x : Z, leValue (Analyzer.u64ToBytes x) = u64 x).
    { intros x. rewrite u64ToBytes_leBytes, leValue_leBytes. reflexivity. }
    split; [apply Hval|].
    intros w Hv Hw Heq.
    assert (Hu : u64 v = u64 w) by (rewrite <- !Hval, Heq; reflexivity).
    unfold u64 in Hu.
    change 18446744073709551616 with (2 ^ 64) in Hu.
    rewrite !Z.mod_small in Hu by assumption. exact Hu.
Qed.

End BytesMore.

(** ** The analyzer over whole runs *)

Section AnalyzerMore.
Context `{Env}.
Import Analyzer.

Lemma run_cons (e : event) (es : list event) (a : t) :
  run (e :: es) a = run es (step e a).
Proof. reflexivity. Qed.

Lemma block_frame (ip : string) (a : t) :
  cfg (block ip a) = cfg a /\ queue (block ip a) = queue a /\
  bloom (block ip a) = bloom a /\ counter (block ip a) = counter a /\
  stop (block ip a) = stop a /\ running (block ip a) = running a.
Proof. unfold block. case_bool_decide; repeat split; reflexivity. Qed.

Lemma analyze_frame (w : World) (req : Request) (a : t) :
  cfg (analyze w req a) = cfg a /\ queue (analyze w req a) = queue a /\
  stop (analyze w req a) = stop a /\ running (analyze w req a) = running a.
Proof.
  unfold analyze.
  destruct (DoubleBufferBloom.TestAndAdd _ _) as [[|] bloom1];
    [repeat split; reflexivity|].
  destruct (Counter.Visit _ _) as [count counter1].
  destruct (count >=? _); [|repeat split; reflexivity].
  match goal with
  | |- context [block ?i ?x] => destruct (block_frame i x) as (-> & -> & _ & _ & -> & ->)
  end.
  repeat split; reflexivity.
Qed.

(** Brings the four equations of [analyze_frame] for the call of
    [analyze] in the goal into the context. *)
Ltac frame_analyze :=
  match goal with
  | |- context [analyze ?w ?r ?x] =>
      let Hc := fresh "Hfc" in
      let Hq := fresh "Hfq" in
      let Hs := fresh "Hfs" in
      let Hr := fresh "Hfr" in
      destruct (analyze_frame w r x) as (Hc & Hq & Hs & Hr);
      cbn [cfg queue stop running] in Hc, Hq, Hs, Hr
  end.

Lemma step_cfg (e : event) (a : t) : cfg (step e a) = cfg a.
Proof.
  destruct e as [w ip path| |w| |]; cbn [step].
  - unfold Record_. destruct (_ <? _); reflexivity.
  - unfold Close. destruct (stop a); reflexivity.
  - destruct (running a); [|reflexivity].
    destruct (queue a) as [|req rest]; [reflexivity|].
    frame_analyze. assumption.
  - destruct (running a); reflexivity.
  - destruct (running a && stop a); reflexivity.
Qed.

Lemma run_cfg (es : list event) (a : t) : cfg (run es a) = cfg a.
Proof.
  induction es as [|e es IH] using rev_ind; [reflexivity|].
  rewrite run_step, step_cfg. exact IH.
Qed.

(** X7.  The queue of an analyzer never holds more observations than its
    capacity allows, whatever its clients and its worker do. *)
Theorem queue_never_exceeds_capacity (cfg0 : Config) (es : list event) :
  Z.of_nat (length (queue (run es (New cfg0)))) <= Z.max 0 (QueueCap cfg0).
Proof.
  induction es as [|e es IH] using rev_ind; [cbn; lia|].
  rewrite run_step.
  pose proof (run_cfg es (New cfg0)) as Hcfg. cbn [cfg New] in Hcfg.
  set (a := run es (New cfg0)) in *.
  destruct e as [w ip path| |w| |]; cbn [step].
  - unfold Record_. rewrite Hcfg.
    destruct (Z.ltb_spec (Z.of_nat (length (queue a))) (QueueCap cfg0));
      cbn [queue]; [|exact IH].
    rewrite length_app. cbn [length]. lia.
  - unfold Close. destruct (stop a); exact IH.
  - destruct (running a); [|exact IH].
    destruct (queue a) as [|req rest] eqn:Hq; [rewrite Hq; exact IH|].
    frame_analyze. rewrite Hfq. cbn [length] in IH. lia.
  - destruct (running a); exact IH.
  - destruct (running a && stop a); exact IH.
Qed.

(** X8.  [Record] calls that meet no worker step in between fill the queue
    in the order they were made, behind what it already holds, up to its
    capacity; the calls that come after that are the ones dropped.
    Nothing else of the analyzer changes. *)
Theorem Record_batch_keeps_oldest
    (recs : list (World * string * string)) (a : t) :
  let room := Z.to_nat (QueueCap (cfg a) - Z.of_nat (length (queue a))) in
  queue (run (recordCalls recs) a) = queue a ++ take room (requestsOf recs) /\
  blocklist (run (recordCalls recs) a) = blocklist a /\
  counter (run (recordCalls recs) a) = counter a /\
  bloom (run (recordCalls recs) a) = bloom a.
Proof.
  revert a. induction recs as [|[[w ip] path] recs IH]; intros a room.
  - cbn. rewrite take_nil, app_nil_r. auto.
  - subst room. cbn [recordCalls map requestsOf fst snd].
    rewrite run_cons. cbn [step].
    specialize (IH (Record_ w ip path a)). cbn zeta in IH.
    destruct IH as (Hq & Hb & Hc & Hf).
    fold (recordCalls recs). fold (requestsOf recs) in *.
    rewrite Hq, Hb, Hc, Hf. clear Hq Hb Hc Hf.
    unfold Record_.
    destruct (Z.ltb_spec (Z.of_nat (length (queue a))) (QueueCap (cfg a)))
      as [Hroom|Hfull]; cbn [queue cfg blocklist counter bloom].
    + rewrite length_app. cbn [length].
      replace (Z.to_nat (QueueCap (cfg a) - Z.of_nat (length (queue a))))
        with (S (Z.to_nat (QueueCap (cfg a)
                           - Z.of_nat (length (queue a) + 1)))) by lia.
      cbn [take]. rewrite <- app_assoc. auto.
    + replace (Z.to_nat (QueueCap (cfg a) - Z.of_nat (length (queue a))))
        with 0%nat by lia.
      cbn [take]. auto.
Qed.

(** X9.  [Close] only closes the stop channel: closing twice is closing
    once, the worker is not stopped by the call itself, the blocklist
    answers as before, and a [Record] made after [Close] goes through as
    one made before it. *)
Theorem Close_idempotent_commutes (a : t) :
  Close (Close a) = Close a /\
  stop (Close a) = true /\
  running (Close a) = running a /\
  (forall ip : string, Blocked ip (Close a) = Blocked ip a) /\
  (forall (w : World) (ip path : string),
     Record_ w ip path (Close a) = Close (Record_ w ip path a)).
Proof.
  unfold Close, Blocked, Record_.
  destruct (stop a) eqn:Hs; cbn [stop running blocklist queue cfg];
    rewrite ?Hs; repeat split; try reflexivity;
    intros w ip path; destruct (_ <? _); cbn [stop]; rewrite ?Hs;
    reflexivity.
Qed.

(** X10.  Once the worker has left its loop, nothing touches the
    blocklist, the counter or the filter any more, and the worker does
    not come back. *)
Theorem stopped_worker_changes_nothing (es : list event) (a : t) :
  running a = false ->
  blocklist (run es a) = blocklist a /\
  counter (run es a) = counter a /\
  bloom (run es a) = bloom a /\
  running (run es a) = false.
Proof.
  intros Hrun. induction es as [|e es IH] using rev_ind; [auto|].
  destruct IH as (Hb & Hc & Hf & Hr). rewrite run_step.
  set (a' := run es a) in *.
  destruct e as [w ip path| |w| |]; cbn [step]; rewrite ?Hr.
  - unfold Record_. destruct (_ <? _); cbn; auto.
  - unfold Close. destruct (stop a'); cbn; auto.
  - auto.
  - auto.
  - cbn. auto.
Qed.

Lemma step_running_stop (e : event) (a : t) :
  (running (step e a) = false ->
   running a = false \/ (e = WorkerStop /\ stop a = true)) /\
  (stop (step e a) = true -> stop a = true \/ e = CallClose).
Proof.
  destruct e as [w ip path| |w| |]; cbn [step].
  - unfold Record_. destruct (_ <? _); cbn [running stop]; auto.
  - unfold Close. destruct (stop a) eqn:Hs; cbn [running stop]; auto.
  - destruct (running a) eqn:Hr; [|auto].
    destruct (queue a) as [|req rest]; [rewrite Hr; auto|].
    frame_analyze. rewrite Hfs, Hfr. split; [discriminate|auto].
  - destruct (running a) eqn:Hr; cbn [running stop rotate]; rewrite ?Hr;
      split; auto; discriminate.
  - destruct (running a) eqn:Hr; destruct (stop a) eqn:Hs;
      cbn [andb running stop]; rewrite ?Hr, ?Hs; auto.
Qed.

(** X11.  With a positive window, for which the worker gets past
    [time.NewTicker] and into its loop, the worker leaves the loop only
    after [Close] was called. *)
Theorem worker_exits_only_after_Close (cfg0 : Config) (es : list event) :
  0 < Window cfg0 ->
  running (run es (New cfg0)) = false ->
  stop (run es (New cfg0)) = true /\ CallClose ∈ es.
Proof.
  intros _.
  assert (Hinv : (running (run es (New cfg0)) = false ->
                  stop (run es (New cfg0)) = true) /\
                 (stop (run es (New cfg0)) = true -> CallClose ∈ es)).
  { induction es as [|e es IH] using rev_ind; [cbn; split; discriminate|].
    destruct IH as (IHr & IHs). rewrite run_step.
    destruct (step_running_stop e (run es (New cfg0))) as (Hsr & Hss).
    split.
    - intros Hr. destruct (Hsr Hr) as [Hr0 | [-> Hs0]].
      + specialize (IHr Hr0).
        destruct e as [w ip path| |w| |]; cbn [step] in *.
        * unfold Record_. destruct (_ <? _); exact IHr.
        * unfold Close. rewrite IHr. exact IHr.
        * rewrite Hr0. exact IHr.
        * rewrite Hr0. exact IHr.
        * rewrite Hr0. exact IHr.
      + cbn [step]. destruct (running _ && stop _); exact Hs0.
    - intros Hs. destruct (Hss Hs) as [Hs0 | ->]; [|set_solver].
      specialize (IHs Hs0). set_solver. }
  intros Hr. destruct Hinv as (H1 & H2). split; [auto|auto].
Qed.

Lemma analyze_blocklist_cases (w : World) (req : Request) (a : t) :
  blocklist (analyze w req a) = blocklist a \/
  ((IP req ∉ current (blocklist a)) /\
   blocklist (analyze w req a)
   = Store ({[IP req]} ∪ current (blocklist a)) (blocklist a)).
Proof.
  unfold analyze.
  destruct (DoubleBufferBloom.TestAndAdd _ _) as [[|] bloom1]; [auto|].
  destruct (Counter.Visit _ _) as [count counter1].
  destruct (count >=? _); [|auto].
  unfold block, Load. cbn [blocklist]. case_bool_decide; cbn; auto.
Qed.

Lemma step_blocklist_cases (e : event) (a : t) :
  blocklist (step e a) = blocklist a \/
  (exists (w : World) (req : Request) (rest : list Request),
     e = WorkerRecv w /\ running a = true /\ queue a = req :: rest /\
     (IP req ∉ current (blocklist a)) /\
     blocklist (step e a)
     = Store ({[IP req]} ∪ current (blocklist a)) (blocklist a)).
Proof.
  destruct e as [w ip path| |w| |]; cbn [step].
  - left. apply Record_blocklist.
  - left. unfold Close. destruct (stop a); reflexivity.
  - destruct (running a) eqn:Hr; [|auto].
    destruct (queue a) as [|req rest] eqn:Hq; [auto|].
    match goal with
    | |- context [analyze w req ?x] =>
        destruct (analyze_blocklist_cases w req x) as [Heq | [Hnot Heq]]
    end; cbn [blocklist] in *.
    + left. exact Heq.
    + right. exists w, req, rest. rewrite Heq. auto.
  - left. destruct (running a); reflexivity.
  - left. destruct (running a && stop a); reflexivity.
Qed.

(** X12.  A step of the analyzer changes the blocklist only when the
    worker analyzes a request, and then by storing one new snapshot: the
    prior set plus the client of that request, which was not in it.
    Recording, closing, rotating and the worker's exit leave the
    blocklist, retired snapshots included, as it was. *)
Theorem step_adds_at_most_the_observed_client (e : event) (a : t) :
  blocklist (step e a) = blocklist a \/
  (exists (w : World) (req : Request) (rest : list Request),
     e = WorkerRecv w /\ running a = true /\ queue a = req :: rest /\
     (IP req ∉ current (blocklist a)) /\
     blocklist (step e a)
     = Store ({[IP req]} ∪ current (blocklist a)) (blocklist a)).
Proof. exact (step_blocklist_cases e a). Qed.

Lemma Visit_after_Clear (c : Counter.t) (ip : string) :
  (Counter.Visit ip (Counter.Clear c)).1 = 1 /\
  Counter.data (Counter.Visit ip (Counter.Clear c)).2 = {[ip := 1]}.
Proof.
  unfold Counter.Visit, Counter.Clear. cbn [Counter.index].
  destruct (decide (ip ∈ (∅ : gset string))) as [Hin|_]; [set_solver|].
  unfold Counter.evict.
  cbn [Counter.data Counter.maxSize Counter.lru GoList.Back last].
  destruct (_ >=? _); split; reflexivity.
Qed.

Lemma recordedIPs_snoc (es : list event) (e : event) :
  recordedIPs (es ++ [e])
  = recordedIPs es ∪ (match recordedIP e with
                      | Some ip => {[ip]}
                      | None => ∅
                      end).
Proof.
  unfold recordedIPs. rewrite omap_app, list_to_set_app_L.
  destruct e; cbn; set_solver.
Qed.

(** What a new analyzer holds came in through [Record]: the clients of
    the queued requests and of the blocklist were all recorded. *)
Lemma reachable_from_recorded (cfg0 : Config) (es : list event) :
  (forall req, req ∈ queue (run es (New cfg0)) -> IP req ∈ recordedIPs es) /\
  current (blocklist (run es (New cfg0))) ⊆ recordedIPs es.
Proof.
  induction es as [|e es IH] using rev_ind; [cbn; set_solver|].
  destruct IH as (IHq & IHb). rewrite run_step, recordedIPs_snoc.
  set (a := run es (New cfg0)) in *.
  split.
  - destruct e as [w ip0 path| |w| |]; cbn [step recordedIP].
    + unfold Record_. destruct (_ <? _); cbn [queue].
      * intros req Hin. apply elem_of_app in Hin as [Hin|Hin].
        -- specialize (IHq req Hin). set_solver.
        -- apply list_elem_of_singleton in Hin. subst req. cbn. set_solver.
      * intros req Hin. specialize (IHq req Hin). set_solver.
    + unfold Close. destruct (stop a); cbn [queue];
        intros req Hin; specialize (IHq req Hin); set_solver.
    + destruct (running a);
        [|intros req Hin; specialize (IHq req Hin); set_solver].
      destruct (queue a) as [|r rest] eqn:Hq;
        [rewrite Hq; intros req Hin; set_solver|].
      frame_analyze. rewrite Hfq.
      intros req Hin. assert (Hin' : req ∈ r :: rest) by set_solver.
      specialize (IHq req Hin'). set_solver.
    + destruct (running a); cbn [queue rotate];
        intros req Hin; specialize (IHq req Hin); set_solver.
    + destruct (running a && stop a); cbn [queue];
        intros req Hin; specialize (IHq req Hin); set_solver.
  - destruct (step_blocklist_cases e a)
      as [Heq | (w & req & rest & -> & _ & Hq & _ & Heq)];
      rewrite Heq; cbn [recordedIP current Store].
    + set_solver.
    + assert (Hin : req ∈ queue a) by (rewrite Hq; set_solver).
      specialize (IHq req Hin). set_solver.
Qed.

(** X13.  Only clients that were recorded can be on the blocklist: if
    [Blocked ip] answers [true] after some run of a new analyzer, the run
    holds a [Record] call for [ip]. *)
Theorem Blocked_only_if_recorded (cfg0 : Config) (es : list event)
    (ip : string) :
  Blocked ip (run es (New cfg0)) = true -> ip ∈ recordedIPs es.
Proof.
  unfold Blocked, Load. rewrite bool_decide_eq_true.
  destruct (reachable_from_recorded cfg0 es) as (_ & Hsub). set_solver.
Qed.

Lemma Visit_result_range (ip : string) (c : Counter.t) :
  0 <= (Counter.Visit ip c).1 <= 65535.
Proof.
  unfold Counter.Visit. destruct (decide (ip ∈ Counter.index c)); cbn [fst].
  - unfold u16.
    pose proof (Z.mod_pos_bound (default 0 (Counter.data c !! ip) + 1) 65536).
    lia.
  - lia.
Qed.

(** X14.  The count is a [uint16], so a [PageThreshold] above 65535 is
    never reached: with such a threshold no client is ever blocked. *)
Theorem high_threshold_never_blocks (cfg0 : Config) (es : list event)
    (ip : string) :
  65535 < PageThreshold cfg0 ->
  Blocked ip (run es (New cfg0)) = false.
Proof.
  intros Hthr.
  assert (Hinv : current (blocklist (run es (New cfg0))) = ∅).
  { induction es as [|e es IH] using rev_ind; [reflexivity|].
    rewrite run_step.
    pose proof (run_cfg es (New cfg0)) as Hcfg. cbn [cfg New] in Hcfg.
    set (a := run es (New cfg0)) in *.
    destruct e as [w ip0 path| |w| |]; cbn [step].
    - rewrite Record_blocklist. exact IH.
    - unfold Close. destruct (stop a); exact IH.
    - destruct (running a); [|exact IH].
      destruct (queue a) as [|req rest]; [exact IH|].
      unfold analyze. cbn [bloom counter cfg blocklist].
      destruct (DoubleBufferBloom.TestAndAdd _ _) as [[|] bloom1];
        [exact IH|].
      pose proof (Visit_result_range (IP req) (counter a)) as Hrange.
      destruct (Counter.Visit (IP req) (counter a)) as [count counter1].
      cbn [fst] in Hrange. rewrite Hcfg.
      destruct (Z.geb_spec count (PageThreshold cfg0)); [lia|exact IH].
    - destruct (running a); exact IH.
    - destruct (running a && stop a); exact IH. }
  unfold Blocked, Load. rewrite Hinv. apply bool_decide_eq_false.
  set_solver.
Qed.

(** X15.  A rotation leaves the blocklist and the queue alone and sets
    every count back to zero; the observation analyzed next is taken for
    new and counted as the first of its client, which puts the client on
    the blocklist exactly when [PageThreshold] is at most 1. *)
Theorem rotate_restarts_counting (w : World) (req : Request) (a : t) :
  blocklist (rotate a) = blocklist a /\
  queue (rotate a) = queue a /\
  (forall ip : string, Counter.Count ip (counter (rotate a)) = 0) /\
  Counter.Count (IP req) (counter (analyze w req (rotate a))) = 1 /\
  (1 < PageThreshold (cfg a) ->
     blocklist (analyze w req (rotate a)) = blocklist a) /\
  (PageThreshold (cfg a) <= 1 ->
     Blocked (IP req) (analyze w req (rotate a)) = true).
Proof.
  split; [reflexivity|]. split; [reflexivity|]. split.
  { intros ip. unfold Counter.Count. cbn. rewrite lookup_empty. reflexivity. }
  unfold analyze. cbn [bloom counter cfg blocklist rotate].
  assert (Hunseen : forall key d,
             DoubleBufferBloom.TestAndAdd key (DoubleBufferBloom.Rotate d)
             = (false,
                (DoubleBufferBloom.TestAndAdd key
                   (DoubleBufferBloom.Rotate d)).2)).
  { intros key d. unfold DoubleBufferBloom.TestAndAdd, DoubleBufferBloom.Rotate.
    cbn [DoubleBufferBloom.current]. unfold DoubleBufferBloom.NewWithEstimates.
    rewrite Test_New. reflexivity. }
  rewrite Hunseen.
  destruct (Visit_after_Clear (counter a) (IP req)) as (Hv1 & Hd).
  destruct (Counter.Visit (IP req) (Counter.Clear (counter a)))
    as [count counter1].
  cbn [fst snd] in Hv1, Hd. subst count.
  destruct (Z.geb_spec 1 (PageThreshold (cfg a))) as [Hle|Hgt].
  - split; [|split; [lia|]].
    + rewrite block_counter. cbn [counter]. unfold Counter.Count.
      rewrite Hd, lookup_singleton_eq. reflexivity.
    + intros _. unfold Blocked, Load. rewrite block_current.
      apply bool_decide_eq_true. set_solver.
  - cbn [counter blocklist]. split; [|split; [reflexivity|lia]].
    unfold Counter.Count. rewrite Hd, lookup_singleton_eq. reflexivity.
Qed.

Lemma step_bloom_valid (e : event) (a : t) :
  DoubleBufferBloom.valid (bloom a) ->
  DoubleBufferBloom.valid (bloom (step e a)).
Proof.
  intros Hv. destruct e as [w ip path| |w| |]; cbn [step].
  - unfold Record_. destruct (_ <? _); exact Hv.
  - unfold Close. destruct (stop a); exact Hv.
  - destruct (running a); [|exact Hv].
    destruct (queue a) as [|req rest]; [exact Hv|].
    unfold analyze. cbn [bloom].
    pose proof (TestAndAdd_valid
                  (u64ToBytes (hashIPPath w (IP req) (Path req)))
                  (bloom a) Hv) as Hv'.
    destruct (DoubleBufferBloom.TestAndAdd _ _) as [[|] bloom1]; [exact Hv|].
    destruct (Counter.Visit _ _) as [count counter1].
    cbn [snd] in Hv'.
    destruct (count >=? _); [|exact Hv'].
    match goal with
    | |- context [block ?i ?x] =>
        destruct (block_frame i x) as (_ & _ & -> & _)
    end.
    exact Hv'.
  - destruct (running a); [|exact Hv]. cbn [bloom rotate].
    unfold DoubleBufferBloom.valid, DoubleBufferBloom.Rotate. cbn.
    apply New_valid.
  - destruct (running a && stop a); exact Hv.
Qed.

Lemma reachable_bloom_valid (cfg0 : Config) (es : list event) :
  DoubleBufferBloom.valid (bloom (run es (New cfg0))).
Proof.
  induction es as [|e es IH] using rev_ind.
  - unfold DoubleBufferBloom.valid. cbn. apply New_valid.
  - rewrite run_step. apply step_bloom_valid, IH.
Qed.

Lemma analyze_twice (w : World) (req : Request) (a : t) :
  DoubleBufferBloom.valid (bloom a) ->
  analyze w req (analyze w req a) = analyze w req a.
Proof.
  intros Hv.
  set (key := u64ToBytes (hashIPPath w (IP req) (Path req))).
  pose proof (TestAndAdd_seen key (bloom a) Hv) as Hseen.
  assert (Hskip : forall x : t,
             Bloom.Test (DoubleBufferBloom.current (bloom x)) key = true ->
             analyze w req x = x).
  { intros x Ht. unfold analyze. fold key.
    unfold DoubleBufferBloom.TestAndAdd. rewrite Ht. reflexivity. }
  destruct (Bloom.Test (DoubleBufferBloom.current (bloom a)) key) eqn:Ht.
  - rewrite (Hskip a Ht). apply Hskip, Ht.
  - apply Hskip. unfold analyze. fold key.
    unfold DoubleBufferBloom.TestAndAdd in *. rewrite Ht in *.
    cbn [snd] in Hseen.
    destruct (Counter.Visit _ _) as [count counter1].
    destruct (count >=? _); [|exact Hseen].
    match goal with
    | |- context [block ?i ?x] =>
        destruct (block_frame i x) as (_ & _ & -> & _)
    end.
    exact Hseen.
Qed.

(** X16.  In every state a new analyzer can reach, analyzing the same
    request a second time under the same hash seed changes nothing: the
    filter reports its key as seen. *)
Theorem analyze_same_request_once (cfg0 : Config) (es : list event)
    (w : World) (req : Request) :
  let a := run es (New cfg0) in
  analyze w req (analyze w req a) = analyze w req a.
Proof.
  intros a. apply analyze_twice, reachable_bloom_valid.
Qed.

End AnalyzerMore.

Section AnalyzerMoreRuns.
Existing Instance Sample.env.
Import Analyzer.

Lemma stopped_worker_changes_nothing_witness :
  let a := step WorkerStop (Close (New Sample.strictConfig)) in
  blocklist (run [CallRecord Sample.world "1.2.3.4" "/a";
                  WorkerRecv Sample.world; WorkerTick] a)
  = blocklist a.
Proof.
  intros a.
  apply (stopped_worker_changes_nothing
           [CallRecord Sample.world "1.2.3.4" "/a";
            WorkerRecv Sample.world; WorkerTick] a).
  reflexivity.
Defined.

Lemma worker_exits_only_after_Close_witness :
  stop (run [CallRecord Sample.world "1.2.3.4" "/a"; CallClose; WorkerStop]
          (New Sample.strictConfig)) = true /\
  CallClose ∈ [CallRecord Sample.world "1.2.3.4" "/a"; CallClose; WorkerStop].
Proof.
  apply (worker_exits_only_after_Close Sample.strictConfig
           [CallRecord Sample.world "1.2.3.4" "/a"; CallClose; WorkerStop]).
  - cbn. lia.
  - reflexivity.
Defined.

Lemma Blocked_only_if_recorded_witness :
  "1.2.3.4"
  ∈ recordedIPs [CallRecord Sample.world "1.2.3.4" "/a";
                 WorkerRecv Sample.world].
Proof.
  apply (Blocked_only_if_recorded Sample.strictConfig
           [CallRecord Sample.world "1.2.3.4" "/a"; WorkerRecv Sample.world]
           "1.2.3.4").
  vm_compute. reflexivity.
Defined.

Lemma high_threshold_never_blocks_witness :
  Blocked "1.2.3.4"
    (run [CallRecord Sample.world "1.2.3.4" "/a"; WorkerRecv Sample.world]
       (New {| Window := 1000000000; PageThreshold := 70000;
               QueueCap := 4 |}))
  = false.
Proof.
  apply (high_threshold_never_blocks
           {| Window := 1000000000; PageThreshold := 70000; QueueCap := 4 |}
           [CallRecord Sample.world "1.2.3.4" "/a"; WorkerRecv Sample.world]
           "1.2.3.4").
  cbn. lia.
Defined.

End AnalyzerMoreRuns.

(** ** The limiter: the pool of token buckets *)

Section LimiterMore.
Context `{Env}.
Import Limiter.

(** The bucket a call for [ip] works on: the one the pool holds, or a new
    one of burst 1 at the configured rate. *)
Lemma getLimiter_bucket (ip : string) (l : t) :
  (getLimiter ip l).1 = default (NewLimiter (Limit (cfg l)) 1) (blocked l !! ip).
Proof. unfold getLimiter. destruct (blocked l !! ip); reflexivity. Qed.

Lemma allowBlocked_spec (w : World) (ip : string) (l : t) :
  let b := default (NewLimiter (Limit (cfg l)) 1) (blocked l !! ip) in
  (allowBlocked w ip l).1 = (bucket_Allow (now w) b).1 /\
  blocked (allowBlocked w ip l).2
  = <[ip := (bucket_Allow (now w) b).2]> (blocked l) /\
  cfg (allowBlocked w ip l).2 = cfg l /\
  kb (allowBlocked w ip l).2 = kb l /\
  analyzer (allowBlocked w ip l).2 = analyzer l.
Proof.
  unfold allowBlocked, getLimiter.
  destruct (blocked l !! ip) as [val|]; cbn [from_option id];
    destruct (bucket_Allow (now w) _) as [ok b1]; cbn;
    rewrite ?insert_insert_eq; auto.
Qed.

Lemma waitBlocked_spec (w : World) (ctx : Context) (ip : string) (l : t) :
  let b := default (NewLimiter (Limit (cfg l)) 1) (blocked l !! ip) in
  (waitBlocked w ctx ip l).1 = (bucket_Wait (now w) ctx b).1 /\
  blocked (waitBlocked w ctx ip l).2
  = <[ip := (bucket_Wait (now w) ctx b).2]> (blocked l) /\
  cfg (waitBlocked w ctx ip l).2 = cfg l /\
  kb (waitBlocked w ctx ip l).2 = kb l /\
  analyzer (waitBlocked w ctx ip l).2 = analyzer l.
Proof.
  unfold waitBlocked, getLimiter.
  destruct (blocked l !! ip) as [val|]; cbn [from_option id];
    destruct (bucket_Wait (now w) ctx _) as [err b1]; cbn;
    rewrite ?insert_insert_eq; auto.
Qed.

(** X17.  [Allow] for a client that is not a bot and is on the blocklist
    answers what the token bucket of that client answers: the bucket the
    pool holds for it, or a new one of burst 1 at the configured rate.
    The reason is [rate_limited] exactly when the bucket refuses.  The
    bucket's new state is stored under the client, the buckets of all
    other clients stay as they were, and nothing is recorded with the
    analyzer. *)
Theorem Allow_blocked_uses_own_bucket (w : World) (ua ip : string) (l : t) :
  IsBot (kb l ua ip) = false ->
  Analyzer.Blocked ip (analyzer l) = true ->
  let b := default (NewLimiter (Limit (cfg l)) 1) (blocked l !! ip) in
  let r := LimiterRev3.Allow w ua ip l in
  r.1 = ((bucket_Allow (now w) b).1,
         if (bucket_Allow (now w) b).1 then LimiterRev3.ReasonNone
         else LimiterRev3.ReasonRateLimited) /\
  blocked r.2 !! ip = Some (bucket_Allow (now w) b).2 /\
  (forall ip' : string, ip' <> ip -> blocked r.2 !! ip' = blocked l !! ip') /\
  analyzer r.2 = analyzer l.
Proof.
  intros Hbot Hblk b r. subst r. unfold LimiterRev3.Allow.
  rewrite Hbot, Hblk.
  destruct (allowBlocked_spec w ip l) as (Hok & Hpool & _ & _ & Han).
  fold b in Hok, Hpool.
  destruct (allowBlocked w ip l) as [ok l1]. cbn [fst snd] in *.
  rewrite <- Hok.
  split; [destruct ok; reflexivity|].
  assert (Hl1 : (if ok then ((true, LimiterRev3.ReasonNone), l1)
                 else ((false, LimiterRev3.ReasonRateLimited), l1)).2 = l1)
    by (destruct ok; reflexivity).
  rewrite Hl1, Hpool.
  split; [apply lookup_insert_eq|].
  split; [intros ip' Hne; apply lookup_insert_ne; congruence|exact Han].
Qed.

(** X18.  The reason [Allow] returns is empty exactly when it admits the
    request, and the reason [Wait] returns is empty exactly when it
    returns [nil]; the reason is [fake_bot] exactly for a bot whose status
    is [Failed] or [Unknown]. *)
Theorem reason_empty_iff_admitted (w : World) (ctx : Context)
    (ua ip : string) (l : t) :
  ((LimiterRev3.Allow w ua ip l).1.1 = true <->
   (LimiterRev3.Allow w ua ip l).1.2 = LimiterRev3.ReasonNone) /\
  ((LimiterRev3.Wait w ctx ua ip l).1.1 = None <->
   (LimiterRev3.Wait w ctx ua ip l).1.2 = LimiterRev3.ReasonNone) /\
  ((LimiterRev3.Allow w ua ip l).1.2 = LimiterRev3.ReasonFakeBot <->
   IsBot (kb l ua ip) = true /\
   (Status (kb l ua ip) = StatusFailed \/
    Status (kb l ua ip) = StatusUnknown)) /\
  ((LimiterRev3.Wait w ctx ua ip l).1.2 = LimiterRev3.ReasonFakeBot <->
   (LimiterRev3.Allow w ua ip l).1.2 = LimiterRev3.ReasonFakeBot).
Proof.
  unfold LimiterRev3.Allow, LimiterRev3.Wait.
  destruct (IsBot (kb l ua ip)).
  - destruct (Status (kb l ua ip)); cbn;
      repeat split; intros; try discriminate; try tauto; auto;
      intuition discriminate.
  - destruct (Analyzer.Blocked ip (analyzer l)).
    + destruct (allowBlocked w ip l) as [[|] l1];
        destruct (waitBlocked w ctx ip l) as [[e|] l2]; cbn;
        repeat split; intros; try discriminate; try tauto; auto;
        intuition discriminate.
    + cbn. repeat split; intros; try discriminate; try tauto; auto;
        intuition discriminate.
Qed.

(** X19.  For a bot, and for a client that is not on the blocklist,
    [Allow] and [Wait] decide alike: [Allow] admits exactly when [Wait]
    returns [nil], with the same reason, and both leave the limiter in
    the same state. *)
Theorem Allow_Wait_agree (w : World) (ctx : Context) (ua ip : string)
    (l : t) :
  IsBot (kb l ua ip) = true \/ Analyzer.Blocked ip (analyzer l) = false ->
  ((LimiterRev3.Allow w ua ip l).1.1 = true <->
   (LimiterRev3.Wait w ctx ua ip l).1.1 = None) /\
  (LimiterRev3.Allow w ua ip l).1.2 = (LimiterRev3.Wait w ctx ua ip l).1.2 /\
  (LimiterRev3.Allow w ua ip l).2 = (LimiterRev3.Wait w ctx ua ip l).2.
Proof.
  intros Hcase. unfold LimiterRev3.Allow, LimiterRev3.Wait.
  destruct (IsBot (kb l ua ip)) eqn:Hbot.
  - destruct (Status (kb l ua ip)); cbn; repeat split; intros;
      try discriminate; auto.
  - destruct Hcase as [Hc|Hc]; [discriminate|]. rewrite Hc. cbn.
    repeat split; auto.
Qed.

(** X20.  The newest text of limiter.go decides as the second one does:
    [Allow] returns the same boolean and leaves the same state, and [Wait]
    leaves the same state and returns the same error, but for a blocked
    client whose bucket returned [nil], where the second text returns
    [nil] and the newest [ErrLimit]. *)
Theorem Rev3_refines_Rev2 (w : World) (ctx : Context) (ua ip : string)
    (l : t) :
  (LimiterRev3.Allow w ua ip l).1.1 = (LimiterRev2.Allow w ua ip l).1 /\
  (LimiterRev3.Allow w ua ip l).2 = (LimiterRev2.Allow w ua ip l).2 /\
  (LimiterRev3.Wait w ctx ua ip l).2 = (LimiterRev2.Wait w ctx ua ip l).2 /\
  ((LimiterRev3.Wait w ctx ua ip l).1.1 = (LimiterRev2.Wait w ctx ua ip l).1 \/
   (IsBot (kb l ua ip) = false /\
    Analyzer.Blocked ip (analyzer l) = true /\
    (LimiterRev2.Wait w ctx ua ip l).1 = None /\
    (LimiterRev3.Wait w ctx ua ip l).1.1 = Some ErrLimit)).
Proof.
  unfold LimiterRev3.Allow, LimiterRev3.Wait, LimiterRev2.Allow,
    LimiterRev2.Wait.
  destruct (IsBot (kb l ua ip)).
  - destruct (Status (kb l ua ip)); cbn; auto.
  - destruct (Analyzer.Blocked ip (analyzer l)); [|cbn; auto].
    destruct (allowBlocked w ip l) as [[|] l1];
      destruct (waitBlocked w ctx ip l) as [[e|] l2]; cbn; auto 10.
Qed.

(** X21.  [Allow] for a client that is not a bot and is not on the
    blocklist admits the request and hands the analyzer one observation:
    the client and the hash of the user agent, which stands where the
    analyzer expects the page.  The observation joins the queue when it
    has room and is dropped otherwise; the pool and the blocklist stay as
    they were. *)
Theorem Allow_records_user_agent (w : World) (ua ip : string) (l : t) :
  IsBot (kb l ua ip) = false ->
  Analyzer.Blocked ip (analyzer l) = false ->
  let r := LimiterRev3.Allow w ua ip l in
  let a := analyzer l in
  r.1 = (true, LimiterRev3.ReasonNone) /\
  blocked r.2 = blocked l /\
  Analyzer.blocklist (analyzer r.2) = Analyzer.blocklist a /\
  Analyzer.queue (analyzer r.2)
  = (if Z.of_nat (length (Analyzer.queue a))
        <? Analyzer.QueueCap (Analyzer.cfg a)
     then Analyzer.queue a
          ++ [{| Analyzer.IP := ip; Analyzer.Path := Analyzer.hashStr w ua |}]
     else Analyzer.queue a).
Proof.
  intros Hbot Hblk r a. subst r a. unfold LimiterRev3.Allow.
  rewrite Hbot, Hblk. cbn [fst snd record set_analyzer blocked analyzer].
  rewrite Record_blocklist. unfold Analyzer.Record_.
  destruct (_ <? _); auto.
Qed.

(** *** Runs *)

Lemma lrun_step (es : list LimiterRun.event) (e : LimiterRun.event) (l : t) :
  LimiterRun.run (es ++ [e]) l = LimiterRun.step e (LimiterRun.run es l).
Proof. unfold LimiterRun.run. rewrite foldl_snoc. reflexivity. Qed.

(** What one call of [Allow] or [Wait] does to the limiter. *)
Lemma Allow_state_cases (w : World) (ua ip : string) (l : t) :
  (LimiterRev3.Allow w ua ip l).2 = l \/
  (IsBot (kb l ua ip) = false /\ Analyzer.Blocked ip (analyzer l) = true /\
   (LimiterRev3.Allow w ua ip l).2 = (allowBlocked w ip l).2) \/
  (IsBot (kb l ua ip) = false /\ Analyzer.Blocked ip (analyzer l) = false /\
   (LimiterRev3.Allow w ua ip l).2 = record w ip ua l).
Proof.
  unfold LimiterRev3.Allow. destruct (IsBot (kb l ua ip)).
  - left. destruct (Status (kb l ua ip)); reflexivity.
  - destruct (Analyzer.Blocked ip (analyzer l)); [|auto].
    right. left. destruct (allowBlocked w ip l) as [[|] l1]; auto.
Qed.

Lemma Wait_state_cases (w : World) (ctx : Context) (ua ip : string) (l : t) :
  (LimiterRev3.Wait w ctx ua ip l).2 = l \/
  (IsBot (kb l ua ip) = false /\ Analyzer.Blocked ip (analyzer l) = true /\
   (LimiterRev3.Wait w ctx ua ip l).2 = (waitBlocked w ctx ip l).2) \/
  (IsBot (kb l ua ip) = false /\ Analyzer.Blocked ip (analyzer l) = false /\
   (LimiterRev3.Wait w ctx ua ip l).2 = record w ip ua l).
Proof.
  unfold LimiterRev3.Wait. destruct (IsBot (kb l ua ip)).
  - left. destruct (Status (kb l ua ip)); reflexivity.
  - destruct (Analyzer.Blocked ip (analyzer l)); [|auto].
    right. left. destruct (waitBlocked w ctx ip l) as [[e|] l1]; auto.
Qed.

(** What one step does: the configuration and the validator stay; the
    pool is emptied, kept, or gets the bucket of a blocked client; the
    analyzer makes at most one step of its own, a [Record] only for a
    client that is not a bot. *)
Lemma lstep_cases (e : LimiterRun.event) (l : t) :
  cfg (LimiterRun.step e l) = cfg l /\
  kb (LimiterRun.step e l) = kb l /\
  (blocked (LimiterRun.step e l) = ∅ \/
   blocked (LimiterRun.step e l) = blocked l \/
   exists (ip : string) (b : bucket),
     Analyzer.Blocked ip (analyzer l) = true /\
     blocked (LimiterRun.step e l) = <[ip := b]> (blocked l)) /\
  (analyzer (LimiterRun.step e l) = analyzer l \/
   exists e0 : Analyzer.event,
     analyzer (LimiterRun.step e l) = Analyzer.step e0 (analyzer l) /\
     forall ip : string,
       recordedIP e0 = Some ip -> LimiterRun.normalClient (kb l) e = Some ip).
Proof.
  destruct e as [w ua ip|w ctx ua ip| |e0]; cbn [LimiterRun.step].
  - destruct (Allow_state_cases w ua ip l)
      as [-> | [(Hbot & Hblk & ->) | (Hbot & Hblk & ->)]]; [auto 10| |].
    + destruct (allowBlocked_spec w ip l) as (_ & -> & -> & -> & ->).
      repeat split; eauto 10.
    + cbn [record set_analyzer cfg kb blocked analyzer].
      repeat split; auto. right.
      exists (Analyzer.CallRecord w ip ua). split; [reflexivity|].
      intros ip0 [= <-]. cbn. rewrite Hbot. reflexivity.
  - destruct (Wait_state_cases w ctx ua ip l)
      as [-> | [(Hbot & Hblk & ->) | (Hbot & Hblk & ->)]]; [auto 10| |].
    + destruct (waitBlocked_spec w ctx ip l) as (_ & -> & -> & -> & ->).
      repeat split; eauto 10.
    + cbn [record set_analyzer cfg kb blocked analyzer].
      repeat split; auto. right.
      exists (Analyzer.CallRecord w ip ua). split; [reflexivity|].
      intros ip0 [= <-]. cbn. rewrite Hbot. reflexivity.
  - cbn. repeat split; auto. right. exists Analyzer.CallClose.
    split; [reflexivity|]. intros ip0 [=].
  - cbn. repeat split; auto. right. exists (LimiterRun.ofWorker e0).
    split; [reflexivity|]. intros ip0. destruct e0; intros [=].
Qed.

Lemma lrun_cfg_kb (es : list LimiterRun.event) (l : t) :
  cfg (LimiterRun.run es l) = cfg l /\ kb (LimiterRun.run es l) = kb l.
Proof.
  induction es as [|e es IH] using rev_ind; [auto|].
  rewrite lrun_step.
  destruct (lstep_cases e (LimiterRun.run es l)) as (-> & -> & _).
  exact IH.
Qed.

(** X22.  In every state a new limiter can reach, the pool holds token
    buckets for clients on the blocklist only; the configuration and the
    validator are those it was made with, and the analyzer still works
    under the window, threshold and queue capacity copied from them. *)
Theorem pool_holds_blocked_clients_only (cfg0 : Config) (kb0 : Validator)
    (es : list LimiterRun.event) :
  let l := LimiterRun.run es (New cfg0 kb0) in
  (forall ip : string,
     is_Some (blocked l !! ip) -> Analyzer.Blocked ip (analyzer l) = true) /\
  cfg l = cfg0 /\ kb l = kb0 /\
  Analyzer.cfg (analyzer l) = LimiterRun.analyzerConfig cfg0.
Proof.
  intros l. subst l.
  destruct (lrun_cfg_kb es (New cfg0 kb0)) as (Hc & Hk).
  cbn [New cfg kb] in Hc, Hk.
  assert (Hinv :
    dom (blocked (LimiterRun.run es (New cfg0 kb0)))
    ⊆ Analyzer.current
        (Analyzer.blocklist (analyzer (LimiterRun.run es (New cfg0 kb0)))) /\
    Analyzer.cfg (analyzer (LimiterRun.run es (New cfg0 kb0)))
    = LimiterRun.analyzerConfig cfg0).
  { clear Hc Hk. induction es as [|e es IH] using rev_ind.
    - cbn. split; [set_solver|reflexivity].
    - rewrite lrun_step. set (l := LimiterRun.run es (New cfg0 kb0)) in *.
      destruct IH as (IHd & IHc).
      destruct (lstep_cases e l) as (_ & _ & Hpool & Han).
      assert (Hmono :
        Analyzer.current (Analyzer.blocklist (analyzer l))
        ⊆ Analyzer.current
            (Analyzer.blocklist (analyzer (LimiterRun.step e l))) /\
        Analyzer.cfg (analyzer (LimiterRun.step e l))
        = LimiterRun.analyzerConfig cfg0).
      { destruct Han as [-> | (e0 & -> & _)]; [auto|].
        split; [intros x Hx; apply step_mono, Hx|].
        rewrite step_cfg. exact IHc. }
      destruct Hmono as (Hsub & Hcfg). split; [|exact Hcfg].
      destruct Hpool as [-> | [-> | (ip & b & Hblk & ->)]].
      + rewrite dom_empty_L. set_solver.
      + set_solver.
      + rewrite dom_insert_L. unfold Analyzer.Blocked, Analyzer.Load in Hblk.
        apply bool_decide_eq_true in Hblk. set_solver. }
  destruct Hinv as (Hd & Hcfg). repeat split; auto.
  intros ip Hin. unfold Analyzer.Blocked, Analyzer.Load.
  apply bool_decide_eq_true. apply Hd. apply elem_of_dom. exact Hin.
Qed.

Lemma normalClients_snoc (kb0 : Validator) (es : list LimiterRun.event)
    (e : LimiterRun.event) :
  LimiterRun.normalClients kb0 (es ++ [e])
  = LimiterRun.normalClients kb0 es
    ∪ (match LimiterRun.normalClient kb0 e with
       | Some ip => {[ip]}
       | None => ∅
       end).
Proof.
  unfold LimiterRun.normalClients. rewrite omap_app, list_to_set_app_L.
  cbn. destruct (LimiterRun.normalClient kb0 e); cbn; set_solver.
Qed.

(** The analyzer of a limiter is a new analyzer after some run of its
    own, whose [Record] calls are all for clients of requests that the
    validator did not take for a bot's. *)
Lemma analyzer_of_run (cfg0 : Config) (kb0 : Validator)
    (es : list LimiterRun.event) :
  exists es0 : list Analyzer.event,
    analyzer (LimiterRun.run es (New cfg0 kb0))
    = Analyzer.run es0 (Analyzer.New (LimiterRun.analyzerConfig cfg0)) /\
    recordedIPs es0 ⊆ LimiterRun.normalClients kb0 es.
Proof.
  induction es as [|e es IH] using rev_ind.
  - exists []. split; [reflexivity|set_solver].
  - destruct IH as (es0 & Heq & Hsub). rewrite lrun_step.
    destruct (lrun_cfg_kb es (New cfg0 kb0)) as (_ & Hk). cbn [New kb] in Hk.
    destruct (lstep_cases e (LimiterRun.run es (New cfg0 kb0)))
      as (_ & _ & _ & Han).
    rewrite Hk in Han. rewrite normalClients_snoc.
    destruct Han as [-> | (e0 & -> & Hrec)].
    + exists es0. split; [exact Heq|set_solver].
    + exists (es0 ++ [e0]). rewrite run_step, Heq. split; [reflexivity|].
      rewrite recordedIPs_snoc. destruct (recordedIP e0) as [ip|].
      * rewrite (Hrec ip eq_refl). set_solver.
      * set_solver.
Qed.

(** X23.  A client is on the blocklist of a limiter only after a call of
    [Allow] or [Wait] for that client with a user agent that the validator
    did not take for a bot's: requests classified as a bot's never count
    towards blocking, and neither do the worker or [Close]. *)
Theorem blocked_only_after_normal_request (cfg0 : Config) (kb0 : Validator)
    (es : list LimiterRun.event) (ip : string) :
  Analyzer.Blocked ip (analyzer (LimiterRun.run es (New cfg0 kb0))) = true ->
  ip ∈ LimiterRun.normalClients kb0 es.
Proof.
  destruct (analyzer_of_run cfg0 kb0 es) as (es0 & -> & Hsub).
  unfold Analyzer.Blocked, Analyzer.Load. rewrite bool_decide_eq_true.
  destruct (reachable_from_recorded (LimiterRun.analyzerConfig cfg0) es0)
    as (_ & Hb).
  set_solver.
Qed.

(** X24.  [Close] empties the pool and keeps the blocklist, the
    configuration and the validator; closing twice is closing once.  The
    limiter keeps answering afterwards, and a blocked client then starts
    over with a new bucket of burst 1, whatever its bucket held before. *)
Theorem Close_drops_buckets_keeps_blocklist (l : t) :
  blocked (Close l) = ∅ /\
  (forall ip : string,
     Analyzer.Blocked ip (analyzer (Close l))
     = Analyzer.Blocked ip (analyzer l)) /\
  cfg (Close l) = cfg l /\ kb (Close l) = kb l /\
  Close (Close l) = Close l /\
  (forall (w : World) (ua ip : string),
     IsBot (kb l ua ip) = false ->
     Analyzer.Blocked ip (analyzer l) = true ->
     (LimiterRev3.Allow w ua ip (Close l)).1.1
     = (bucket_Allow (now w) (NewLimiter (Limit (cfg l)) 1)).1).
Proof.
  assert (Hblk : forall ip : string,
            Analyzer.Blocked ip (analyzer (Close l))
            = Analyzer.Blocked ip (analyzer l)).
  { intros ip. unfold Close, Analyzer.Close. cbn [analyzer].
    destruct (Analyzer.stop (analyzer l)); reflexivity. }
  repeat split; auto.
  - unfold Close. cbn [cfg kb analyzer blocked]. f_equal.
    unfold Analyzer.Close. destruct (Analyzer.stop (analyzer l)) eqn:Hs;
      cbn; rewrite ?Hs; reflexivity.
  - intros w ua ip Hbot Hb.
    unfold LimiterRev3.Allow. cbn [kb Close]. rewrite Hbot.
    change (analyzer {| cfg := cfg l; blocked := ∅; kb := kb l;
                        analyzer := Analyzer.Close (analyzer l) |})
      with (analyzer (Close l)).
    rewrite Hblk, Hb.
    change {| cfg := cfg l; blocked := ∅; kb := kb l;
              analyzer := Analyzer.Close (analyzer l) |} with (Close l).
    destruct (allowBlocked_spec w ip (Close l)) as (Hok & _).
    cbn [Close blocked cfg] in Hok. rewrite lookup_empty in Hok.
    cbn [from_option id] in Hok.
    change {| cfg := cfg l; blocked := ∅; kb := kb l;
              analyzer := Analyzer.Close (analyzer l) |} with (Close l) in Hok.
    destruct (allowBlocked w ip (Close l)) as [[|] l1]; cbn in *; auto.
Qed.

End LimiterMore.

(** ** Options and [New] *)

Section OptionsMore.
Context `{Env}.
Import Limiter LimiterOptions.

Lemma applyOptions_snoc (opts : list Option) (opt : Option) :
  applyOptions (opts ++ [opt]) = opt (applyOptions opts).
Proof. unfold applyOptions. rewrite foldl_snoc. reflexivity. Qed.

Lemma last_omap_snoc {A B : Type} (f : A -> option B) (l : list A) (x : A) :
  last (omap f (l ++ [x]))
  = match f x with Some y => Some y | None => last (omap f l) end.
Proof.
  rewrite omap_app. cbn. destruct (f x) as [y|].
  - apply last_snoc.
  - rewrite app_nil_r. reflexivity.
Qed.

(** X25.  Options apply in the order given, each to its own field: after
    any list of the five options of the package, every field of the
    configuration holds the value of the last option given for it, or the
    package default when there is none, and the validator is the one of
    the last [WithKnownbots], if any. *)
Theorem last_option_wins (ss : list Setting) :
  let l := applyOptions (map toOption ss) in
  Limit (b_cfg l) = default DefaultLimit (last (omap limitOf ss)) /\
  Window (b_cfg l) = default DefaultWindow (last (omap windowOf ss)) /\
  PageThreshold (b_cfg l)
  = default DefaultPageThreshold (last (omap pageThresholdOf ss)) /\
  QueueCap (b_cfg l) = default DefaultQueueCap (last (omap queueCapOf ss)) /\
  b_kb l = default None (last (omap knownbotsOf ss)).
Proof.
  induction ss as [|s ss IH] using rev_ind.
  - cbn. auto.
  - cbn zeta in *. destruct IH as (IH1 & IH2 & IH3 & IH4 & IH5).
    rewrite map_app. cbn [map]. rewrite applyOptions_snoc.
    rewrite !last_omap_snoc.
    destruct s; cbn; auto.
Qed.


End OptionsMore.

(** ** The texts of limiter.go side by side *)

Section TextsMore.
Context `{Env}.
Import Limiter.

(** X27.  The three texts of limiter.go part ways over unverified bots
    only: for a client that is not a bot, and for a verified bot, the
    oldest [Allow] and [Wait] return what the second ones return and
    leave the same state. *)
Theorem Rev1_agrees_off_unverified_bots (w : World) (ctx : Context)
    (ua ip : string) (l : t) :
  IsBot (kb l ua ip) = false \/ Status (kb l ua ip) = StatusVerified ->
  LimiterRev1.Allow w ua ip l = LimiterRev2.Allow w ua ip l /\
  LimiterRev1.Wait w ctx ua ip l = LimiterRev2.Wait w ctx ua ip l.
Proof.
  intros Hcase.
  unfold LimiterRev1.Allow, LimiterRev1.Wait, LimiterRev2.Allow,
    LimiterRev2.Wait.
  destruct (IsBot (kb l ua ip)); [|auto].
  destruct Hcase as [Hc | ->]; [discriminate|auto].
Qed.

End TextsMore.

Section LimiterMoreRuns.
Existing Instance Sample.env.
Import Limiter.

Lemma Allow_blocked_uses_own_bucket_witness :
  (LimiterRev3.Allow Sample.world "Mozilla/5.0" "198.51.100.7"
     Sample.blockedLimiter).1 = (true, LimiterRev3.ReasonNone) /\
  analyzer (LimiterRev3.Allow Sample.world "Mozilla/5.0" "198.51.100.7"
              Sample.blockedLimiter).2
  = analyzer Sample.blockedLimiter.
Proof.
  assert (Hbot : IsBot (kb Sample.blockedLimiter "Mozilla/5.0" "198.51.100.7")
                 = false) by reflexivity.
  assert (Hblk : Analyzer.Blocked "198.51.100.7"
                   (analyzer Sample.blockedLimiter) = true)
    by (vm_compute; reflexivity).
  destruct (Allow_blocked_uses_own_bucket Sample.world "Mozilla/5.0"
              "198.51.100.7" Sample.blockedLimiter Hbot Hblk)
    as (Hres & _ & _ & Han).
  split; [exact Hres|exact Han].
Defined.

Lemma Allow_Wait_agree_witness :
  (LimiterRev3.Allow Sample.world "Mozilla/5.0" "1.2.3.4" Sample.limiter).2
  = (LimiterRev3.Wait Sample.world Background "Mozilla/5.0" "1.2.3.4"
       Sample.limiter).2.
Proof.
  apply (Allow_Wait_agree Sample.world Background "Mozilla/5.0" "1.2.3.4"
           Sample.limiter).
  right. vm_compute. reflexivity.
Defined.

Lemma Allow_records_user_agent_witness :
  Analyzer.queue
    (analyzer (LimiterRev3.Allow Sample.world "Mozilla/5.0" "1.2.3.4"
                 Sample.limiter).2)
  = [{| Analyzer.IP := "1.2.3.4";
        Analyzer.Path := Analyzer.hashStr Sample.world "Mozilla/5.0" |}].
Proof.
  assert (Hbot : IsBot (kb Sample.limiter "Mozilla/5.0" "1.2.3.4") = false)
    by reflexivity.
  assert (Hblk : Analyzer.Blocked "1.2.3.4" (analyzer Sample.limiter) = false)
    by (vm_compute; reflexivity).
  destruct (Allow_records_user_agent Sample.world "Mozilla/5.0" "1.2.3.4"
              Sample.limiter Hbot Hblk) as (_ & _ & _ & Hq).
  exact Hq.
Defined.

Lemma blocked_only_after_normal_request_witness :
  "1.2.3.4"
  ∈ LimiterRun.normalClients Sample.validator
      [LimiterRun.CallAllow Sample.world "Mozilla/5.0" "1.2.3.4";
       LimiterRun.Worker (LimiterRun.Recv Sample.world)].
Proof.
  apply (blocked_only_after_normal_request
           {| Limit := DefaultLimit; Window := DefaultWindow;
              PageThreshold := 1; QueueCap := 2 |}
           Sample.validator
           [LimiterRun.CallAllow Sample.world "Mozilla/5.0" "1.2.3.4";
            LimiterRun.Worker (LimiterRun.Recv Sample.world)]
           "1.2.3.4").
  vm_compute. reflexivity.
Defined.

Lemma Rev1_agrees_off_unverified_bots_witness :
  LimiterRev1.Allow Sample.world "Mozilla/5.0" "1.2.3.4" Sample.limiter
  = LimiterRev2.Allow Sample.world "Mozilla/5.0" "1.2.3.4" Sample.limiter.
Proof.
  apply (Rev1_agrees_off_unverified_bots Sample.world Background
           "Mozilla/5.0" "1.2.3.4" Sample.limiter).
  left. reflexivity.
Defined.

(** The three ways in which [New] returns no limiter: the default
    validator cannot be built; [make] panics on a negative queue
    capacity; the worker panics on a window that is not positive. *)
Example New_without_limiter :
  LimiterOptions.New [] (inr (ErrOther "knownbots: no bot list"))
  = LimiterOptions.Failed (ErrOther "knownbots: no bot list") /\
  LimiterOptions.New
    [LimiterOptions.WithKnownbots (Some Sample.validator);
     LimiterOptions.WithAnalyzerQueueCap (-1)]
    (inr (ErrOther "knownbots: no bot list"))
  = LimiterOptions.Panicked Analyzer.MakeChan /\
  LimiterOptions.New [LimiterOptions.WithAnalyzerWindow 0]
    (inl Sample.validator)
  = LimiterOptions.Panicked Analyzer.NewTicker.
Proof. repeat split; reflexivity. Qed.

End LimiterMoreRuns.
